(** * Drone edge node: battery state machine, forwarding loop, delivery and retry

    A shallow embedding of the edge node of the drone telemetry pipeline
    ([common/battery.py], [common/messages.py], [drone_edge/drone.py]) and
    the properties of its specification, proved over that embedding.

    Conventions of the embedding.
    - Python integers are [Z].  Python floats are kept abstract: every
      definition that computes with sensor values is parametric in a type
      [num] carrying the operations the code uses ([PyNum]); nothing below
      depends on how floating point rounds.
    - An object method [def m(self, x)] becomes a function taking the state
      last and returning the new state.
    - Values that come from the environment (the clock, the outcome of a
      network connection, the reading popped from the queue) are explicit
      inputs of the function that reads them.
    - [logging] calls are not modelled, except for the few events of the
      delivery and retry paths collected in [LogEvent]. *)

From stdpp Require Import base option list gmap strings.
From Stdlib Require Import ZArith QArith Lia.

Local Open Scope Z_scope.

(** ** common/battery.py *)

Record Battery := mkBattery {
  level : Z;
  drain_rate : Z;
  recharge_rate : Z;
  LOW_BATTERY_THRESHOLD : Z;
  returning : bool
}.

Definition CRITICAL_BATTERY_THRESHOLD : Z := 90.
Definition RECHARGE_RATE : Z := 10.
Definition DRAIN_RATE : Z := 3.

(** [Battery.__init__(start, drain, recharge, low_threshold)]. *)
Definition Battery_init (start drain recharge low_threshold : Z) : Battery :=
  {| level := start;
     drain_rate := drain;
     recharge_rate := recharge;
     LOW_BATTERY_THRESHOLD := low_threshold;
     returning := false |}.

Definition set_level (l : Z) (b : Battery) : Battery :=
  {| level := l;
     drain_rate := drain_rate b;
     recharge_rate := recharge_rate b;
     LOW_BATTERY_THRESHOLD := LOW_BATTERY_THRESHOLD b;
     returning := returning b |}.

Definition set_returning (r : bool) (b : Battery) : Battery :=
  {| level := level b;
     drain_rate := drain_rate b;
     recharge_rate := recharge_rate b;
     LOW_BATTERY_THRESHOLD := LOW_BATTERY_THRESHOLD b;
     returning := r |}.

(** [Battery.tick(charging)]: the level moves first, then the flag is
    re-evaluated on the new level.  The Python method returns the new
    level, which is [level (tick charging b)]. *)
Definition tick (charging : bool) (b : Battery) : Battery :=
  let b1 :=
    if charging
    then set_level (Z.min 100 (level b + recharge_rate b)) b
    else set_level (Z.max 0 (level b - drain_rate b)) b in
  if negb (returning b1) && (level b1 <? LOW_BATTERY_THRESHOLD b1)
  then set_returning true b1
  else if returning b1 && (CRITICAL_BATTERY_THRESHOLD <=? level b1)
  then set_returning false b1
  else b1.

(** A sequence of ticks, one [charging] argument per call. *)
Definition ticks (cs : list bool) (b : Battery) : Battery :=
  fold_left (fun acc c => tick c acc) cs b.

(** ** Numbers of sensor values

    [temperature] and [humidity] are Python floats (or whatever number the
    JSON frame carried).  The code adds them, divides a sum by a count and
    compares them with integer bounds; [PyNum] lists exactly these
    operations.  [of_int] is the implicit conversion of a Python [int]
    operand. *)
Class PyNum (num : Type) := {
  of_int : Z -> num;
  nadd : num -> num -> num;
  ndiv : num -> num -> num;
  nle : num -> num -> bool
}.

(** Exact rationals, used for the concrete runs below. *)
#[export] Instance PyNum_Q : PyNum Q := {
  of_int := inject_Z;
  nadd := Qplus;
  ndiv := Qdiv;
  nle := Qle_bool
}.

(** ** common/messages.py *)

Definition DELIM : string := String (Ascii.ascii_of_nat 10) EmptyString.

Module SensorReading.
Record t (num : Type) := mk {
  sensor_id : string;
  temperature : num;
  humidity : num;
  timestamp : string
}.
Arguments mk {num}.
Arguments sensor_id {num}.
Arguments temperature {num}.
Arguments humidity {num}.
Arguments timestamp {num}.
End SensorReading.

(** The anomaly dictionary built by the forwarding loop:
    [{"sensor_id": ..., "val": [temperature, humidity], "ts": ...}]. *)
Record AnomalyEvent (num : Type) := mkAnomaly {
  ev_sensor_id : string;
  ev_val : num * num;
  ev_ts : string
}.
Arguments mkAnomaly {num}.
Arguments ev_sensor_id {num}.
Arguments ev_val {num}.
Arguments ev_ts {num}.

Inductive Status := active | returning_to_base.

Module DroneReport.
Record t (num : Type) := mk {
  drone_id : string;
  timestamp : string;
  battery_level : Z;
  status : Status;
  avg_temperature : num;
  avg_humidity : num;
  sensor_count : Z;
  anomalies : list (AnomalyEvent num)
}.
Arguments mk {num}.
Arguments drone_id {num}.
Arguments timestamp {num}.
Arguments battery_level {num}.
Arguments status {num}.
Arguments avg_temperature {num}.
Arguments avg_humidity {num}.
Arguments sensor_count {num}.
Arguments anomalies {num}.
End DroneReport.

(** ** drone_edge/drone.py: state of the node *)

Definition FORWARD_BATCH : Z := 5.
Definition THRESHOLDS_temp : Z * Z := (0, 40).
Definition THRESHOLDS_hum : Z * Z := (10, 90).

(** Exceptions the delivery paths distinguish.  [FileNotFoundError] is a
    subclass of [OSError]; [JSONDecodeError] and [OtherException] are
    subclasses of [Exception] only. *)
Inductive exn := OSError | FileNotFoundError | JSONDecodeError | OtherException.

Inductive LogEvent :=
| LogInvalidThreshold (new_threshold : Z)
| LogNoValidReadings
| LogReportSent
| LogUnreachableSaved (name : string)
| LogSendUnexpected
| LogResendAttempt (name : string)
| LogResent (name : string)
| LogVanished (name : string)
| LogCorruptDeleted (name : string)
| LogResendFailed (name : string)
| LogResendUnexpected (name : string).

(** The fields of [DroneEdge] the modelled methods read or write.
    [unsent_dir] is the directory of persisted reports, a map from file
    name to file content.  [collector] is not a field of the object: it
    records, oldest first, the byte strings a connection to the central
    server accepted, so that what was delivered can be stated. *)
Record DroneEdge (num : Type) := mkDroneEdge {
  battery : Battery;
  travel_ticks_remaining : Z;
  charging_started_log_sent : bool;
  _stop : bool;
  gui_q : list (DroneReport.t num);
  unsent_dir : gmap string string;
  collector : list string;
  log : list LogEvent
}.
Arguments mkDroneEdge {num}.
Arguments battery {num}.
Arguments travel_ticks_remaining {num}.
Arguments charging_started_log_sent {num}.
Arguments _stop {num}.
Arguments gui_q {num}.
Arguments unsent_dir {num}.
Arguments collector {num}.
Arguments log {num}.

Section Node.
Context {num : Type} {PN : PyNum num}.

Abbreviation Reading := (SensorReading.t num).
Abbreviation Report := (DroneReport.t num).
Abbreviation Anomaly := (AnomalyEvent num).
Abbreviation Edge := (DroneEdge num).

Definition with_battery (b : Battery) (self : Edge) : Edge :=
  mkDroneEdge b (travel_ticks_remaining self) (charging_started_log_sent self)
    (_stop self) (gui_q self) (unsent_dir self) (collector self) (log self).

Definition with_travel (n : Z) (self : Edge) : Edge :=
  mkDroneEdge (battery self) n (charging_started_log_sent self)
    (_stop self) (gui_q self) (unsent_dir self) (collector self) (log self).

Definition with_charging_log (f : bool) (self : Edge) : Edge :=
  mkDroneEdge (battery self) (travel_ticks_remaining self) f
    (_stop self) (gui_q self) (unsent_dir self) (collector self) (log self).

Definition with_stop (f : bool) (self : Edge) : Edge :=
  mkDroneEdge (battery self) (travel_ticks_remaining self)
    (charging_started_log_sent self) f (gui_q self) (unsent_dir self)
    (collector self) (log self).

Definition with_unsent (d : gmap string string) (self : Edge) : Edge :=
  mkDroneEdge (battery self) (travel_ticks_remaining self)
    (charging_started_log_sent self) (_stop self) (gui_q self) d
    (collector self) (log self).

Definition gui_put (r : Report) (self : Edge) : Edge :=
  mkDroneEdge (battery self) (travel_ticks_remaining self)
    (charging_started_log_sent self) (_stop self) (gui_q self ++ [r])
    (unsent_dir self) (collector self) (log self).

Definition collector_recv (bytes : string) (self : Edge) : Edge :=
  mkDroneEdge (battery self) (travel_ticks_remaining self)
    (charging_started_log_sent self) (_stop self) (gui_q self)
    (unsent_dir self) (collector self ++ [bytes]) (log self).

Definition logging (e : LogEvent) (self : Edge) : Edge :=
  mkDroneEdge (battery self) (travel_ticks_remaining self)
    (charging_started_log_sent self) (_stop self) (gui_q self)
    (unsent_dir self) (collector self) (log self ++ [e]).

(** [DroneEdge.__init__]: [Battery(recharge=10, low_threshold=20)], no
    travel pending, an empty [unsent] directory. *)
Definition DroneEdge_init : Edge :=
  mkDroneEdge (Battery_init 100 DRAIN_RATE 10 20) 0 false false [] ∅ [] [].

(** [DroneEdge.stop] (the socket it closes is not modelled). *)
Definition stop (self : Edge) : Edge := with_stop true self.

(** ** Operator controls *)

(** [DroneEdge.manual_drain_battery(amount)]. *)
Definition manual_drain_battery (amount : Z) (self : Edge) : Edge :=
  if amount <=? 0 then self
  else
    let b := set_level (Z.max 0 (level (battery self) - amount)) (battery self) in
    let self1 := with_battery b self in
    if (level b <? LOW_BATTERY_THRESHOLD b) && negb (returning b) then
      let self2 := with_battery (set_returning true b) self1 in
      if travel_ticks_remaining self2 =? 0
      then with_charging_log false (with_travel 2 self2)
      else self2
    else if (CRITICAL_BATTERY_THRESHOLD <=? level b) && returning b then
      with_travel 0 (with_battery (set_returning false b) self1)
    else self1.

(** What a Python call hands back: [return False] or the implicit [None]. *)
Inductive PyReturn := ReturnFalse | ReturnNone.

(** [DroneEdge.set_low_battery_threshold(new_threshold)].  The two [elif]
    branches of the source only log or [pass]. *)
Definition set_low_battery_threshold (new_threshold : Z) (self : Edge)
  : PyReturn * Edge :=
  if negb ((5 <=? new_threshold) && (new_threshold <=? 80)) then
    (ReturnFalse, logging (LogInvalidThreshold new_threshold) self)
  else
    let current_level := level (battery self) in
    let currently_returning := returning (battery self) in
    if negb currently_returning && (current_level <? new_threshold) then
      let self1 := with_battery (set_returning true (battery self)) self in
      if travel_ticks_remaining self1 =? 0
      then (ReturnNone, with_charging_log false (with_travel 2 self1))
      else (ReturnNone, self1)
    else (ReturnNone, self).

(** ** Building and delivering a report *)

(** [json.dumps(asdict(rpt))]: the JSON text of a report, produced by the
    Python standard library. *)
Variable json_dumps : Report -> string.

(** [DroneReport.to_bytes]. *)
Definition to_bytes (rpt : Report) : string := json_dumps rpt +:+ DELIM.

(** [_send_report] takes any objects and asks each one [hasattr] for the
    attributes it needs, so an element of [readings] is an object whose
    attributes may be missing. *)
Record ReadingObj := mkObj {
  obj_sensor_id : option string;
  obj_temperature : option num;
  obj_humidity : option num
}.

(** A [SensorReading] seen as such an object: every attribute is there. *)
Definition as_obj (r : Reading) : ReadingObj :=
  {| obj_sensor_id := Some (SensorReading.sensor_id r);
     obj_temperature := Some (SensorReading.temperature r);
     obj_humidity := Some (SensorReading.humidity r) |}.

(** [hasattr(r, 'temperature') and hasattr(r, 'humidity')]. *)
Definition has_T_H (r : ReadingObj) : bool :=
  match obj_temperature r, obj_humidity r with
  | Some _, Some _ => true
  | _, _ => false
  end.

(** The built-in [sum]: starts from the integer 0 and adds from the left. *)
Definition py_sum (xs : list num) : num := fold_left nadd xs (of_int 0).

(** [len(...)] as a Python integer. *)
Definition len {A : Type} (xs : list A) : Z := Z.of_nat (length xs).

(** What a connection attempt to the central server does with the bytes
    handed to it: [create_connection] and [sendall] go through, or raise
    [OSError] (refused, timed out, reset), or raise something else. *)
Inductive Connection := Delivered | Unreachable | Broken.

(** What [_send_report] reads from its environment. *)
Record SendEnv := mkSendEnv {
  utcnow_isoformat : string;   (* datetime.datetime.utcnow().isoformat() *)
  connection : Connection;     (* socket.create_connection + sendall *)
  time_time : string           (* the text of time.time() in the file name *)
}.

(** [isinstance(e, OSError)]. *)
Definition is_OSError (e : exn) : bool :=
  match e with
  | OSError | FileNotFoundError => true
  | JSONDecodeError | OtherException => false
  end.

(** [try: body except ...: handlers]: a handler that matches decides the
    outcome, an exception no handler matches goes on to the caller.  The
    bodies below change no state before they raise, so a handler starts
    from the state the [try] was entered with. *)
Definition try_except {A : Type} (body : exn + A)
    (handlers : exn -> option (exn + A)) : exn + A :=
  match body with
  | inr a => inr a
  | inl e => match handlers e with
             | Some outcome => outcome
             | None => inl e
             end
  end.

(** [with socket.create_connection(addr, timeout=...) as sock:
    sock.sendall(data)]. *)
Definition sendall (c : Connection) (data : string) (self : Edge) : exn + Edge :=
  match c with
  | Delivered => inr (collector_recv data self)
  | Unreachable => inl OSError
  | Broken => inl OtherException
  end.

(** The [DroneReport(...)] expression of [_send_report], for a non-empty
    [valid_readings]. *)
Definition make_rpt (env : SendEnv) (valid_readings : list ReadingObj)
    (anomalies_list : list Anomaly) (self : Edge) : Report :=
  let avg_t := ndiv (py_sum (omap obj_temperature valid_readings))
                    (of_int (len valid_readings)) in
  let avg_h := ndiv (py_sum (omap obj_humidity valid_readings))
                    (of_int (len valid_readings)) in
  DroneReport.mk "drone1"
    (utcnow_isoformat env)
    (level (battery self))
    (if returning (battery self) then returning_to_base else active)
    avg_t avg_h
    (Z.of_nat (size (list_to_set (omap obj_sensor_id valid_readings) : gset string)))
    anomalies_list.

(** The name of the file a report is saved under: [f"{time.time()}.json"]. *)
Definition unsent_name (env : SendEnv) : string := time_time env +:+ ".json".

(** [DroneEdge._send_report(readings, anomalies_list)]. *)
Definition _send_report (env : SendEnv) (readings : list ReadingObj)
    (anomalies_list : list Anomaly) (self : Edge) : exn + Edge :=
  match readings with
  | [] => inr self
  | _ :: _ =>
    let valid_readings := filter (fun r => has_T_H r = true) readings in
    match valid_readings with
    | [] => inr (logging LogNoValidReadings self)
    | _ :: _ =>
      let rpt := make_rpt env valid_readings anomalies_list self in
      let self1 := gui_put rpt self in
      try_except
        (match sendall (connection env) (to_bytes rpt) self1 with
         | inr self2 => inr (logging LogReportSent self2)
         | inl e => inl e
         end)
        (fun e =>
           if is_OSError e then
             let report_bytes := to_bytes rpt in
             Some (inr (with_unsent
                          (<[unsent_name env := report_bytes]> (unsent_dir self1))
                          (logging (LogUnreachableSaved (unsent_name env)) self1)))
           else Some (inr (logging LogSendUnexpected self1)))
    end
  end.

(** ** Retrying persisted reports *)

(** [Path.glob("*.json")] keeps the names that end in [.json]. *)
Definition is_json_name (name : string) : bool :=
  let n := String.length name in
  (5 <=? n)%nat && String.eqb (String.substring (n - 5) 5 name) ".json".

Definition glob_json (d : gmap string string) : list string :=
  filter (fun name => is_json_name name = true) (map_to_list d).*1.

(** [report_file.read_bytes()]. *)
Definition read_bytes (report_file : string) (self : Edge) : exn + string :=
  match unsent_dir self !! report_file with
  | Some content => inr content
  | None => inl FileNotFoundError
  end.

(** [report_file.unlink()]. *)
Definition unlink (report_file : string) (self : Edge) : exn + Edge :=
  match unsent_dir self !! report_file with
  | Some _ => inr (with_unsent (delete report_file (unsent_dir self)) self)
  | None => inl FileNotFoundError
  end.

(** One pass of the [for report_file in ...] body, after the [_stop]
    check: the [try] reads the file, sends what it read and unlinks the
    file; the [except] clauses follow in the order of the source.  The
    parsing of the content is commented out in the source, so nothing in
    the [try] raises [JSONDecodeError]. *)
Definition resend (c : Connection) (report_file : string) (self : Edge)
  : exn + Edge :=
  let self0 := logging (LogResendAttempt report_file) self in
  try_except
    (match read_bytes report_file self0 with
     | inl e => inl e
     | inr report_bytes =>
       match sendall c report_bytes self0 with
       | inl e => inl e
       | inr self1 => unlink report_file (logging (LogResent report_file) self1)
       end
     end)
    (fun e =>
       match e with
       | FileNotFoundError => Some (inr (logging (LogVanished report_file) self0))
       | JSONDecodeError =>
           Some (unlink report_file (logging (LogCorruptDeleted report_file) self0))
       | OSError => Some (inr (logging (LogResendFailed report_file) self0))
       | OtherException =>
           Some (inr (logging (LogResendUnexpected report_file) self0))
       end).

(** The [for] loop over the listing taken at its start; [net] tells what
    the connection opened for each file does.  [_stop] is only ever set by
    another method, so it reads the same at every [if self._stop.is_set():
    break]. *)
Fixpoint resend_all (net : string -> Connection) (files : list string)
    (self : Edge) : exn + Edge :=
  match files with
  | [] => inr self
  | report_file :: rest =>
    if _stop self then inr self
    else match resend (net report_file) report_file self with
         | inl e => inl e
         | inr self1 => resend_all net rest self1
         end
  end.

(** The body of the [while] loop of [_retry_unsent_reports_loop], once the
    sleep is over.  The directory is created by [__init__], so
    [unsent_dir.exists()] holds. *)
Definition retry_cycle (net : string -> Connection) (self : Edge) : exn + Edge :=
  if decide (unsent_dir self = ∅) then inr self
  else resend_all net (glob_json (unsent_dir self)) self.

(** [_retry_unsent_reports_loop], one [net] per wake-up. *)
Fixpoint _retry_unsent_reports_loop (nets : list (string -> Connection))
    (self : Edge) : exn + Edge :=
  match nets with
  | [] => inr self
  | net :: rest =>
    if _stop self then inr self
    else match retry_cycle net self with
         | inl e => inl e
         | inr self1 => _retry_unsent_reports_loop rest self1
         end
  end.

(** ** The forwarding loop *)

(** [is_anomaly(reading)]; [a <= x <= b] is [a <= x and x <= b]. *)
Definition is_anomaly (reading : Reading) : bool :=
  let t_ok := nle (of_int (fst THRESHOLDS_temp)) (SensorReading.temperature reading)
              && nle (SensorReading.temperature reading) (of_int (snd THRESHOLDS_temp)) in
  let h_ok := nle (of_int (fst THRESHOLDS_hum)) (SensorReading.humidity reading)
              && nle (SensorReading.humidity reading) (of_int (snd THRESHOLDS_hum)) in
  negb (t_ok && h_ok).

(** The local variables of [_forward_loop]. *)
Record Locals := mkLocals {
  batch : list Reading;
  anomalies : list Anomaly;
  last_known_returning_status : bool
}.

Definition Locals_init (self : Edge) : Locals :=
  mkLocals [] [] (returning (battery self)).

(** A call [self._send_report(list(batch), list(anomalies))]: the two
    copies it is given. *)
Definition Flush : Type := list Reading * list Anomaly.

Inductive Control := NextIteration | Break.

(** The value of [should_charge_this_tick], with the countdown step and
    the log flag that are updated while it is computed. *)
Definition should_charge_this_tick (self : Edge) : bool * Edge :=
  if returning (battery self) then
    if 0 <? travel_ticks_remaining self
    then (false, with_travel (travel_ticks_remaining self - 1) self)
    else (true, with_charging_log true self)
  else (false, self).

(** The body of [if current_time - self.last_battery_tick_time >=
    EFFECTIVE_BATTERY_TICK_INTERVAL:], shutdown check included. *)
Definition battery_tick (self : Edge) : Edge * Control :=
  let '(charging, self1) := should_charge_this_tick self in
  let self2 := with_battery (tick charging (battery self1)) self1 in
  if (level (battery self2) <=? 0) && negb (_stop self2)
  then (stop self2, Break)
  else (self2, NextIteration).

(** Status change detection: the flush on becoming active, the start of
    the travel countdown on starting to return, and the update of
    [last_known_returning_status]. *)
Definition status_change (self : Edge) (loc : Locals)
  : Edge * Locals * list Flush :=
  let current_returning_status := returning (battery self) in
  let last := last_known_returning_status loc in
  let '(self1, loc1, out) :=
    if last && negb current_returning_status then
      let self' := with_charging_log false self in
      match batch loc with
      | [] => (self', loc, [])
      | _ :: _ => (self', mkLocals [] [] last, [(batch loc, anomalies loc)])
      end
    else (self, loc, []) in
  let self2 :=
    if negb last && current_returning_status
    then with_charging_log false (with_travel 2 self1)
    else self1 in
  (self2, mkLocals (batch loc1) (anomalies loc1) current_returning_status, out).

(** [if len(batch) >= FORWARD_BATCH and not self.battery.returning:]. *)
Definition flush_condition (self : Edge) (loc : Locals) : Locals * list Flush :=
  if (FORWARD_BATCH <=? len (batch loc)) && negb (returning (battery self))
  then (mkLocals [] [] (last_known_returning_status loc),
        [(batch loc, anomalies loc)])
  else (loc, []).

(** The [try: reading = self.readings_q.get(timeout=1) ...] block and the
    flush condition after it.  [incoming] is what the queue hands over:
    [None] stands for [queue.Empty].  The [continue] of the returning
    branch skips the flush condition. *)
Definition queue_reading (incoming : option Reading) (self : Edge)
    (loc : Locals) : Locals * list Flush :=
  match incoming with
  | Some reading =>
    let anomalies1 :=
      if is_anomaly reading
      then anomalies loc ++
           [mkAnomaly (SensorReading.sensor_id reading)
              (SensorReading.temperature reading, SensorReading.humidity reading)
              (SensorReading.timestamp reading)]
      else anomalies loc in
    let loc1 := mkLocals (batch loc ++ [reading]) anomalies1
                  (last_known_returning_status loc) in
    if returning (battery self) then (loc1, [])
    else flush_condition self loc1
  | None => flush_condition self loc
  end.

(** One turn of the [while] loop.  [tick_due] is the outcome of the clock
    test [current_time - self.last_battery_tick_time >=
    EFFECTIVE_BATTERY_TICK_INTERVAL].  The result lists the [_send_report]
    calls of the turn in the order they are made; the battery is not
    written after the tick, so every call sees the battery of the
    resulting state. *)
Definition forward_iteration (tick_due : bool) (incoming : option Reading)
    (self : Edge) (loc : Locals) : Edge * Locals * list Flush * Control :=
  let '(self1, ctl) :=
    if tick_due then battery_tick self else (self, NextIteration) in
  match ctl with
  | Break => (self1, loc, [], Break)
  | NextIteration =>
    let '(self2, loc2, out1) := status_change self1 loc in
    let '(loc3, out2) := queue_reading incoming self2 loc2 in
    (self2, loc3, out1 ++ out2, NextIteration)
  end.

(** Carrying out the [_send_report] calls of a turn. *)
Fixpoint deliver (env : SendEnv) (calls : list Flush) (self : Edge)
  : exn + Edge :=
  match calls with
  | [] => inr self
  | (readings, anomalies_list) :: rest =>
    match _send_report env (map as_obj readings) anomalies_list self with
    | inl e => inl e
    | inr self1 => deliver env rest self1
    end
  end.

(** What one turn of the loop reads from outside. *)
Record Turn := mkTurn {
  tick_due : bool;
  incoming : option Reading;
  send_env : SendEnv
}.

Fixpoint forward_turns (turns : list Turn) (self : Edge) (loc : Locals)
  : exn + (Edge * Locals) :=
  match turns with
  | [] => inr (self, loc)
  | t :: rest =>
    if _stop self then inr (self, loc)
    else
      let '(self1, loc1, calls, ctl) :=
        forward_iteration (tick_due t) (incoming t) self loc in
      match deliver (send_env t) calls self1 with
      | inl e => inl e
      | inr self2 =>
        match ctl with
        | Break => inr (self2, loc1)
        | NextIteration => forward_turns rest self2 loc1
        end
      end
  end.

(** [DroneEdge._forward_loop], run for the given turns. *)
Definition _forward_loop (turns : list Turn) (self : Edge)
  : exn + (Edge * Locals) :=
  forward_turns turns self (Locals_init self).

End Node.

(** * Properties *)

(** The states a battery goes through, one per tick. *)
Fixpoint tick_trace (cs : list bool) (b : Battery) : list Battery :=
  match cs with
  | [] => []
  | c :: rest => tick c b :: tick_trace rest (tick c b)
  end.

Definition gauge (b : Battery) : Z * bool := (level b, returning b).

(** Case analysis on the integer tests of the goal. *)
Ltac ztests :=
  repeat match goal with
         | |- context [(?a <? ?b)%Z] => destruct (Z.ltb_spec a b)
         | |- context [(?a <=? ?b)%Z] => destruct (Z.leb_spec a b)
         | |- context [(?a =? ?b)%Z] => destruct (Z.eqb_spec a b)
         end.

Ltac tick_cases b c :=
  unfold tick, set_level, set_returning, CRITICAL_BATTERY_THRESHOLD in *;
  destruct b as [lvl dr rr low ret]; destruct c, ret; simpl in *;
  ztests; simpl in *.

(** ** Battery.tick *)

Lemma tick_low_threshold (c : bool) (b : Battery) :
  LOW_BATTERY_THRESHOLD (tick c b) = LOW_BATTERY_THRESHOLD b.
Proof. tick_cases b c; reflexivity. Qed.

Lemma tick_rates (c : bool) (b : Battery) :
  drain_rate (tick c b) = drain_rate b /\ recharge_rate (tick c b) = recharge_rate b.
Proof. tick_cases b c; split; reflexivity. Qed.

Lemma tick_level (c : bool) (b : Battery) :
  level (tick c b) =
  if c then Z.min 100 (level b + recharge_rate b)
  else Z.max 0 (level b - drain_rate b).
Proof. tick_cases b c; reflexivity. Qed.

Lemma tick_sets_returning (c : bool) (b : Battery) :
  returning b = false -> returning (tick c b) = true ->
  level (tick c b) < LOW_BATTERY_THRESHOLD (tick c b).
Proof. tick_cases b c; intros; try discriminate; lia. Qed.

Lemma tick_clears_returning (c : bool) (b : Battery) :
  returning b = true -> returning (tick c b) = false ->
  CRITICAL_BATTERY_THRESHOLD <= level (tick c b).
Proof. tick_cases b c; intros; try discriminate; lia. Qed.

Lemma tick_while_returning (c : bool) (b : Battery) :
  returning b = true ->
  returning (tick c b) = negb (CRITICAL_BATTERY_THRESHOLD <=? level (tick c b)).
Proof.
  intros Hr. unfold tick, set_level, set_returning, CRITICAL_BATTERY_THRESHOLD.
  destruct b as [lvl dr rr low ret]; simpl in *; subst ret.
  destruct c; simpl; destruct (90 <=? _) eqn:E; simpl; rewrite ?E; reflexivity.
Qed.

(** C2.  Hysteresis of [Battery.tick].  After any sequence of ticks, one
    more tick turns [returning] from false to true only if the level it
    produced is below the low threshold, and from true to false only if
    that level is at least the critical threshold.  With low threshold 20
    and critical threshold 90: a tick that brings a battery which is not
    returning to level 19 sets the flag; while the flag is set it is
    cleared by exactly the ticks that produce a level of 90 or more; and
    the run 25, 22, 19 (draining 3), then 29, 39, ..., 89, 99 (charging 10)
    has the flag false, false, true, then true up to 89 and false at 99. *)
Theorem tick_hysteresis (b : Battery) (cs : list bool) (c : bool) :
  LOW_BATTERY_THRESHOLD b < CRITICAL_BATTERY_THRESHOLD ->
  let before := ticks cs b in
  let after := tick c before in
  (returning before = false -> returning after = true ->
     level after < LOW_BATTERY_THRESHOLD b)
  /\ (returning before = true -> returning after = false ->
        CRITICAL_BATTERY_THRESHOLD <= level after)
  /\ (LOW_BATTERY_THRESHOLD b = 20 -> returning before = false ->
        level after = 19 -> returning after = true)
  /\ (returning before = true ->
        (level after <= 89 -> returning after = true)
        /\ (returning after = false <-> 90 <= level after))
  /\ gauge <$> tick_trace [false; false] (Battery_init 25 3 10 20)
     = [(22, false); (19, true)]
  /\ gauge <$> tick_trace [true; true; true; true; true; true; true; true]
                 (mkBattery 19 3 10 20 true)
     = [(29, true); (39, true); (49, true); (59, true); (69, true);
        (79, true); (89, true); (99, false)].
Proof.
  intros Hlt before after.
  assert (Hlow : LOW_BATTERY_THRESHOLD before = LOW_BATTERY_THRESHOLD b).
  { subst before. unfold ticks. clear Hlt after.
    revert b. induction cs as [|c' cs IH]; intros b; simpl; [reflexivity|].
    rewrite IH. apply tick_low_threshold. }
  split; [|split; [|split; [|split; [|split]]]].
  - intros H0 H1. rewrite <- Hlow, <- (tick_low_threshold c before).
    now apply tick_sets_returning.
  - now apply tick_clears_returning.
  - intros H20 H0 H19. subst after. rewrite <- Hlow in H20.
    revert H20 H0 H19. generalize before as x. intros x.
    tick_cases x c; intros; subst; try lia; reflexivity.
  - intros Hr. subst after. rewrite (tick_while_returning c before Hr).
    unfold CRITICAL_BATTERY_THRESHOLD.
    destruct (Z.leb_spec 90 (level (tick c before))); simpl;
      (split; [intros | split; intros]); try reflexivity; try discriminate; lia.
  - reflexivity.
  - reflexivity.
Qed.

Lemma tick_hysteresis_witness :
  LOW_BATTERY_THRESHOLD (Battery_init 25 3 10 20) < CRITICAL_BATTERY_THRESHOLD
  /\ level (tick false (ticks [false] (Battery_init 25 3 10 20))) < 20.
Proof.
  assert (H : LOW_BATTERY_THRESHOLD (Battery_init 25 3 10 20)
              < CRITICAL_BATTERY_THRESHOLD) by (vm_compute; reflexivity).
  split; [exact H|].
  destruct (tick_hysteresis (Battery_init 25 3 10 20) [false] false H) as [H1 _].
  apply H1; reflexivity.
Defined.

(** ** Level bounds *)

(** The operations that write the level of the node's battery. *)
Inductive BatteryOp :=
| OpTick (charging : bool)
| OpManualDrain (amount : Z).

Definition apply_op {num : Type} (self : DroneEdge num) (op : BatteryOp)
  : DroneEdge num :=
  match op with
  | OpTick charging => with_battery (tick charging (battery self)) self
  | OpManualDrain amount => manual_drain_battery amount self
  end.

Definition apply_ops {num : Type} (ops : list BatteryOp) (self : DroneEdge num)
  : DroneEdge num :=
  fold_left apply_op ops self.

Definition in_range (b : Battery) : Prop := 0 <= level b <= 100.

Definition rates_nonneg (b : Battery) : Prop :=
  0 <= drain_rate b /\ 0 <= recharge_rate b.

Section Controls.
Context {num : Type}.
Implicit Types self : DroneEdge num.

Ltac drain_cases self :=
  unfold manual_drain_battery, with_charging_log, with_travel, with_battery,
    set_level, set_returning, CRITICAL_BATTERY_THRESHOLD in *;
  destruct self as [[lvl dr rr low ret] trv clog stp gq ud col lg];
  simpl in *; ztests; simpl in *.

Lemma tick_in_range (c : bool) (b : Battery) :
  rates_nonneg b -> in_range b -> in_range (tick c b).
Proof.
  unfold rates_nonneg, in_range. rewrite tick_level.
  intros [Hd Hr] Hl. destruct c; lia.
Qed.

Lemma manual_drain_level (amount : Z) self :
  0 < amount ->
  level (battery (manual_drain_battery amount self))
  = Z.max 0 (level (battery self) - amount).
Proof. intros Ha. drain_cases self; destruct ret; simpl; try lia; reflexivity. Qed.

Lemma manual_drain_noop (amount : Z) self :
  amount <= 0 -> manual_drain_battery amount self = self.
Proof.
  intros Ha. unfold manual_drain_battery.
  destruct (Z.leb_spec amount 0); [reflexivity|lia].
Qed.

Lemma manual_drain_rates (amount : Z) self :
  drain_rate (battery (manual_drain_battery amount self)) = drain_rate (battery self)
  /\ recharge_rate (battery (manual_drain_battery amount self))
     = recharge_rate (battery self)
  /\ LOW_BATTERY_THRESHOLD (battery (manual_drain_battery amount self))
     = LOW_BATTERY_THRESHOLD (battery self).
Proof. drain_cases self; destruct ret; simpl; repeat split; reflexivity. Qed.

Lemma apply_op_rates self (op : BatteryOp) :
  rates_nonneg (battery self) -> rates_nonneg (battery (apply_op self op)).
Proof.
  unfold rates_nonneg. destruct op as [c|a]; simpl.
  - destruct (tick_rates c (battery self)) as [-> ->]. tauto.
  - destruct (manual_drain_rates a self) as (-> & -> & _). tauto.
Qed.

Lemma apply_op_in_range self (op : BatteryOp) :
  rates_nonneg (battery self) -> in_range (battery self) ->
  in_range (battery (apply_op self op)).
Proof.
  intros Hr Hl. destruct op as [c|a]; simpl.
  - now apply tick_in_range.
  - destruct (Z.le_gt_cases a 0) as [Ha|Ha].
    + now rewrite manual_drain_noop.
    + unfold in_range in *. rewrite manual_drain_level by lia. lia.
Qed.

(** C10, as amended.  For a battery whose drain and recharge rates are not
    negative and whose level starts in [0,100], the level is in [0,100]
    after any sequence of ticks (charging or not) and manual drains.  A
    manual drain of a positive amount sets the level to
    [max 0 (level - amount)], which is not above the old level; a manual
    drain of a non-positive amount changes nothing. *)
Theorem level_stays_in_range (ops : list BatteryOp) self :
  rates_nonneg (battery self) ->
  in_range (battery self) ->
  in_range (battery (apply_ops ops self))
  /\ (forall c, in_range (tick c (battery self)))
  /\ (forall amount, 0 < amount ->
        level (battery (manual_drain_battery amount self))
        = Z.max 0 (level (battery self) - amount)
        /\ 0 <= level (battery (manual_drain_battery amount self))
           <= level (battery self))
  /\ (forall amount, amount <= 0 -> manual_drain_battery amount self = self).
Proof.
  intros Hr Hl. split; [|split; [|split]].
  - unfold apply_ops. revert self Hr Hl.
    induction ops as [|op ops IH]; intros self Hr Hl; simpl; [exact Hl|].
    apply IH; [now apply apply_op_rates | now apply apply_op_in_range].
  - intros c. now apply tick_in_range.
  - intros amount Ha. rewrite manual_drain_level by exact Ha.
    unfold in_range in Hl. split; [reflexivity | lia].
  - intros amount Ha. now apply manual_drain_noop.
Qed.

(** C9, as amended.  A manual drain of a positive amount lowers the level
    by the amount, stopping at 0, and re-evaluates [returning] against the
    current low threshold, which it leaves as it is: a node that was not
    returning and is now below the low threshold starts returning, and the
    travel countdown is set to 2 unless one is in progress; a node that was
    returning and is now at or above the critical threshold stops
    returning; in every other case the flag and the countdown stay.  A
    non-positive amount changes nothing. *)
Theorem manual_drain_reevaluates (amount : Z) self :
  let self' := manual_drain_battery amount self in
  let new_level := Z.max 0 (level (battery self) - amount) in
  (amount <= 0 -> self' = self)
  /\ (0 < amount ->
      level (battery self') = new_level
      /\ LOW_BATTERY_THRESHOLD (battery self') = LOW_BATTERY_THRESHOLD (battery self)
      /\ (returning (battery self) = false ->
          new_level < LOW_BATTERY_THRESHOLD (battery self) ->
          returning (battery self') = true
          /\ travel_ticks_remaining self'
             = if travel_ticks_remaining self =? 0 then 2
               else travel_ticks_remaining self)
      /\ (returning (battery self) = true ->
          CRITICAL_BATTERY_THRESHOLD <= new_level ->
          returning (battery self') = false)
      /\ (returning (battery self) = false ->
          LOW_BATTERY_THRESHOLD (battery self) <= new_level ->
          returning (battery self') = false
          /\ travel_ticks_remaining self' = travel_ticks_remaining self)
      /\ (returning (battery self) = true ->
          new_level < CRITICAL_BATTERY_THRESHOLD ->
          returning (battery self') = true
          /\ travel_ticks_remaining self' = travel_ticks_remaining self)).
Proof.
  intros self' new_level. split.
  - apply manual_drain_noop.
  - intros Ha. subst self' new_level.
    split; [now apply manual_drain_level|].
    split; [apply manual_drain_rates|].
    drain_cases self; destruct ret; simpl in *;
      repeat split; intros; try discriminate; try reflexivity; try lia.
Qed.

End Controls.

Lemma level_stays_in_range_witness :
  rates_nonneg (battery (@DroneEdge_init Q))
  /\ in_range (battery (@DroneEdge_init Q))
  /\ in_range (battery (apply_ops
                          [OpTick false; OpManualDrain 200; OpTick true; OpTick true]
                          (@DroneEdge_init Q))).
Proof.
  assert (Hr : rates_nonneg (battery (@DroneEdge_init Q))).
  { unfold rates_nonneg; simpl; unfold DRAIN_RATE; lia. }
  assert (Hl : in_range (battery (@DroneEdge_init Q))).
  { unfold in_range; simpl; lia. }
  split; [exact Hr|]. split; [exact Hl|].
  exact (proj1 (level_stays_in_range
                  [OpTick false; OpManualDrain 200; OpTick true; OpTick true]
                  (@DroneEdge_init Q) Hr Hl)).
Defined.

(** C10, counterexample.  [Battery(start=50, drain=-60)] starts in range,
    and one tick without charging takes it to [max(0, 50 + 60) = 110]: a
    draining tick stops at 0 only (and a charging tick at 100 only). *)
Lemma level_range_counterexample :
  let b := Battery_init 50 (-60) 10 20 in
  in_range b
  /\ level (tick false b) = 110
  /\ ~ in_range (tick false b)
  /\ ~ (forall (b0 : Battery) (cs : list bool), in_range b0 -> in_range (ticks cs b0)).
Proof.
  assert (Hin : in_range (Battery_init 50 (-60) 10 20))
    by (unfold in_range; simpl; lia).
  assert (Hout : ~ in_range (tick false (Battery_init 50 (-60) 10 20)))
    by (unfold in_range; simpl; lia).
  repeat split; try assumption; try (simpl; lia).
  intros Hall. apply Hout. exact (Hall _ [false] Hin).
Qed.

Lemma manual_drain_reevaluates_witness :
  let self := with_battery (Battery_init 25 3 10 20) (@DroneEdge_init Q) in
  0 < 10
  /\ level (battery (manual_drain_battery 10 self)) = 15
  /\ returning (battery (manual_drain_battery 10 self)) = true
  /\ travel_ticks_remaining (manual_drain_battery 10 self) = 2.
Proof.
  intros self.
  assert (Ha : 0 < 10) by lia.
  destruct (manual_drain_reevaluates 10 self) as [_ H].
  destruct (H Ha) as (Hlvl & _ & Hret & _).
  split; [exact Ha|]. split; [exact Hlvl|].
  apply Hret; [reflexivity | vm_compute; reflexivity].
Defined.

(** C9, counterexample.  For the amount -5 the claim's rule gives the
    level [max(0, 100 - (-5)) = 105]; the method returns at its first
    line and the level stays at 100. *)
Lemma manual_drain_counterexample :
  level (battery (manual_drain_battery (-5) (@DroneEdge_init Q))) = 100
  /\ Z.max 0 (level (battery (@DroneEdge_init Q)) - (-5)) = 105
  /\ ~ (forall (amount : Z) (self : DroneEdge Q),
          level (battery (manual_drain_battery amount self))
          = Z.max 0 (level (battery self) - amount)).
Proof.
  split; [reflexivity|]. split; [reflexivity|].
  intros Hall. specialize (Hall (-5) (@DroneEdge_init Q)). discriminate Hall.
Qed.

(** C1.  What [set_low_battery_threshold] does.  A value outside [5,80] is
    answered with [False] and leaves the battery and the countdown as they
    were.  A value inside [5,80] makes a node that is not returning and
    whose level is below the new value start returning (a node that is
    returning stays so), and leaves the level alone; but it is never
    stored: [LOW_BATTERY_THRESHOLD] is the same before and after.  On a
    fresh node, [set_low_battery_threshold(50)] leaves the threshold at 20,
    and 17 ticks later the level is 49, below 50, with [returning] still
    false. *)
Theorem set_low_battery_threshold_effect {num : Type} (new_threshold : Z)
    (self : DroneEdge num) :
  let result := set_low_battery_threshold new_threshold self in
  let self' := snd result in
  LOW_BATTERY_THRESHOLD (battery self') = LOW_BATTERY_THRESHOLD (battery self)
  /\ level (battery self') = level (battery self)
  /\ (~ 5 <= new_threshold <= 80 ->
      fst result = ReturnFalse
      /\ battery self' = battery self
      /\ travel_ticks_remaining self' = travel_ticks_remaining self)
  /\ (5 <= new_threshold <= 80 ->
      fst result = ReturnNone
      /\ returning (battery self')
         = returning (battery self) || (level (battery self) <? new_threshold))
  /\ (let fresh := snd (set_low_battery_threshold 50 (@DroneEdge_init Q)) in
      fst (set_low_battery_threshold 50 (@DroneEdge_init Q)) = ReturnNone
      /\ LOW_BATTERY_THRESHOLD (battery fresh) = 20
      /\ gauge (ticks (repeat false 17) (battery fresh)) = (49, false)).
Proof.
  intros result self'. subst result self'.
  unfold set_low_battery_threshold, with_charging_log, with_travel,
    with_battery, logging, set_returning.
  destruct self as [[lvl dr rr low ret] trv clog stp gq ud col lg]; simpl.
  split; [|split; [|split; [|split]]].
  - ztests; destruct ret; simpl; ztests; reflexivity.
  - ztests; destruct ret; simpl; ztests; reflexivity.
  - intros Hout. ztests; simpl; try lia; repeat split; reflexivity.
  - intros Hin. ztests; simpl; try lia; destruct ret; simpl; ztests;
      simpl; split; try reflexivity; lia.
  - vm_compute. repeat split; reflexivity.
Qed.

(** ** Reports *)

Section Delivery.
Context {num : Type} {PN : PyNum num}.
Variable json_dumps : DroneReport.t num -> string.

Abbreviation Obj := (@ReadingObj num).
Abbreviation send_report := (_send_report json_dumps).
Abbreviation encode := (to_bytes json_dumps).

(** The readings of a batch that carry both a temperature and a humidity,
    as (temperature, humidity, sensor id if any), in the order of the
    batch. *)
Definition both_fields (readings : list Obj) : list (num * num * option string) :=
  flat_map (fun r => match obj_temperature r, obj_humidity r with
                     | Some t, Some h => [(t, h, obj_sensor_id r)]
                     | _, _ => []
                     end) readings.

(** The arithmetic mean in the arithmetic of [num]: the sum of the values,
    divided by how many they are. *)
Definition arithmetic_mean (xs : list num) : num :=
  ndiv (fold_left nadd xs (of_int 0)) (of_int (Z.of_nat (length xs))).

(** The number of distinct elements of a list. *)
Definition distinct (ids : list string) : Z := Z.of_nat (length (remove_dups ids)).

Lemma valid_readings_fields (readings : list Obj) :
  let valid := filter (fun r => has_T_H r = true) readings in
  omap obj_temperature valid = (both_fields readings).*1.*1
  /\ omap obj_humidity valid = (both_fields readings).*1.*2
  /\ omap obj_sensor_id valid = omap snd (both_fields readings)
  /\ length valid = length (both_fields readings).
Proof.
  induction readings as [|r rs IH]; simpl; [repeat split; reflexivity|].
  destruct IH as (IHt & IHh & IHs & IHl).
  rewrite filter_cons. unfold has_T_H at 1.
  destruct r as [sid [t|] [h|]]; simpl in *;
    try (repeat split; assumption).
  destruct sid; repeat split; f_equal; assumption.
Qed.

Lemma size_list_to_set_distinct (ids : list string) :
  Z.of_nat (size (list_to_set ids : gset string)) = distinct ids.
Proof.
  unfold distinct. f_equal.
  rewrite <- (size_list_to_set (C := gset string) (remove_dups ids))
    by apply NoDup_remove_dups.
  f_equal. apply leibniz_equiv. intros x.
  rewrite !elem_of_list_to_set. symmetry. apply elem_of_remove_dups.
Qed.

Lemma both_fields_nil (readings : list Obj) :
  both_fields readings = [] <-> filter (fun r => has_T_H r = true) readings = [].
Proof.
  pose proof (valid_readings_fields readings) as (_ & _ & _ & Hlen).
  split; intros H.
  - apply length_zero_iff_nil. rewrite Hlen, H. reflexivity.
  - apply length_zero_iff_nil. rewrite <- Hlen, H. reflexivity.
Qed.

(** What [make_rpt] puts in the report, in terms of [both_fields]. *)
Lemma make_rpt_fields env (readings : list Obj) anomalies_list (self : DroneEdge num) :
  let rpt := make_rpt env (filter (fun r => has_T_H r = true) readings)
               anomalies_list self in
  DroneReport.avg_temperature rpt = arithmetic_mean (both_fields readings).*1.*1
  /\ DroneReport.avg_humidity rpt = arithmetic_mean (both_fields readings).*1.*2
  /\ DroneReport.sensor_count rpt = distinct (omap snd (both_fields readings))
  /\ DroneReport.anomalies rpt = anomalies_list.
Proof.
  pose proof (valid_readings_fields readings) as (Ht & Hh & Hs & Hl).
  simpl in *. unfold make_rpt, arithmetic_mean, py_sum, len. simpl.
  rewrite Ht, Hh, Hs, Hl, size_list_to_set_distinct.
  rewrite !length_fmap. repeat split; reflexivity.
Qed.

(** The state [_send_report] returns for a non-empty list of valid
    readings, by what the connection does. *)
Lemma send_report_outcome env (readings : list Obj) anomalies_list
    (self : DroneEdge num) :
  filter (fun r => has_T_H r = true) readings <> [] ->
  let rpt := make_rpt env (filter (fun r => has_T_H r = true) readings)
               anomalies_list self in
  send_report env readings anomalies_list self =
  inr match connection env with
      | Delivered =>
          logging LogReportSent (collector_recv (encode rpt) (gui_put rpt self))
      | Unreachable =>
          with_unsent (<[unsent_name env := encode rpt]> (unsent_dir self))
            (logging (LogUnreachableSaved (unsent_name env)) (gui_put rpt self))
      | Broken => logging LogSendUnexpected (gui_put rpt self)
      end.
Proof.
  intros Hne rpt. subst rpt. unfold _send_report.
  destruct readings as [|r rs]; [now destruct Hne|].
  destruct (filter _ (r :: rs)) as [|v vs] eqn:Hv; [now destruct Hne|].
  destruct (connection env); reflexivity.
Qed.

Lemma send_report_nothing (env : SendEnv) (readings : list Obj) anomalies_list
    (self : DroneEdge num) :
  filter (fun r => has_T_H r = true) readings = [] ->
  exists self', send_report env readings anomalies_list self = inr self'
    /\ gui_q self' = gui_q self
    /\ collector self' = collector self
    /\ unsent_dir self' = unsent_dir self
    /\ battery self' = battery self.
Proof.
  intros Hv. unfold _send_report.
  destruct readings as [|r rs]; [exists self; repeat split; reflexivity|].
  rewrite Hv. eexists; repeat split; reflexivity.
Qed.

(** C5.  When a batch is handed to [_send_report]: if at least one of its
    readings carries both a temperature and a humidity, exactly one report
    is emitted (put on the GUI queue, and its encoding delivered or saved);
    its [avg_temperature] and [avg_humidity] are the arithmetic means of
    the fields of exactly the readings carrying both, its [sensor_count] is
    the number of distinct sensor ids among those readings, and it carries
    the anomalies given.  If no reading carries both fields, no report is
    emitted at all. *)
Theorem report_averages_valid_readings env (readings : list Obj)
    anomalies_list (self : DroneEdge num) :
  let valid := both_fields readings in
  (valid <> [] ->
   exists rpt self',
     send_report env readings anomalies_list self = inr self'
     /\ gui_q self' = gui_q self ++ [rpt]
     /\ (connection env = Delivered ->
         collector self' = collector self ++ [encode rpt])
     /\ (connection env = Unreachable ->
         unsent_dir self' !! unsent_name env = Some (encode rpt))
     /\ DroneReport.avg_temperature rpt = arithmetic_mean valid.*1.*1
     /\ DroneReport.avg_humidity rpt = arithmetic_mean valid.*1.*2
     /\ DroneReport.sensor_count rpt = distinct (omap snd valid)
     /\ DroneReport.anomalies rpt = anomalies_list)
  /\ (valid = [] ->
      exists self',
        send_report env readings anomalies_list self = inr self'
        /\ gui_q self' = gui_q self
        /\ collector self' = collector self
        /\ unsent_dir self' = unsent_dir self).
Proof.
  intros valid. subst valid. split.
  - intros Hne.
    assert (Hv : filter (fun r => has_T_H r = true) readings <> []).
    { intros H. apply Hne. now apply both_fields_nil. }
    pose proof (make_rpt_fields env readings anomalies_list self)
      as (Ht & Hh & Hs & Ha).
    eexists. eexists. split; [apply send_report_outcome; exact Hv|].
    split; [destruct (connection env); reflexivity|].
    split; [intros ->; reflexivity|].
    split; [intros ->; simpl; apply lookup_insert_eq|].
    repeat split; assumption.
  - intros Hnil. apply both_fields_nil in Hnil.
    destruct (send_report_nothing env readings anomalies_list self Hnil)
      as (self' & H1 & H2 & H3 & H4 & _).
    exists self'. repeat split; assumption.
Qed.

End Delivery.

(** ** Store and forward *)

#[local] Instance Connection_eq_dec : EqDecision Connection.
Proof. solve_decision. Defined.

(** The contents a retry pass hands over to the collector: for each file
    of the listing, in order, the content stored under it if its
    connection goes through. *)
Definition delivered_now (net : string -> Connection) (d : gmap string string)
    (files : list string) : list string :=
  omap (fun name => match net name with
                    | Delivered => d !! name
                    | Unreachable | Broken => None
                    end) files.

Section StoreAndForward.
Context {num : Type} {PN : PyNum num}.
Variable json_dumps : DroneReport.t num -> string.

Abbreviation send_report := (_send_report json_dumps).
Abbreviation encode := (to_bytes json_dumps).

(** C6, as amended.  [_send_report] with a report to send always returns
    normally.  When the connection fails with [OSError], the encoded
    report is written to the unsent store under the name made of the clock
    reading and [.json], and nothing reaches the collector; if no record
    has that name yet, the store gains exactly one record and keeps every
    older record as it was.  When the connection goes through, the encoded
    report reaches the collector and the store is left as it was. *)
Theorem send_report_stores_on_failure (env : SendEnv)
    (readings : list (@ReadingObj num)) (anomalies_list : list (AnomalyEvent num))
    (self : DroneEdge num) :
  filter (fun r => has_T_H r = true) readings <> [] ->
  let rpt := make_rpt env (filter (fun r => has_T_H r = true) readings)
               anomalies_list self in
  exists self',
    send_report env readings anomalies_list self = inr self'
    /\ (connection env = Unreachable ->
        unsent_dir self' = <[unsent_name env := encode rpt]> (unsent_dir self)
        /\ unsent_dir self' !! unsent_name env = Some (encode rpt)
        /\ collector self' = collector self
        /\ (unsent_dir self !! unsent_name env = None ->
            size (unsent_dir self') = S (size (unsent_dir self))
            /\ unsent_dir self ⊆ unsent_dir self'))
    /\ (connection env = Delivered ->
        unsent_dir self' = unsent_dir self
        /\ collector self' = collector self ++ [encode rpt]).
Proof.
  intros Hv rpt. eexists. split; [apply send_report_outcome; exact Hv|].
  fold rpt. split; intros ->; simpl.
  - split; [reflexivity|]. split; [apply lookup_insert_eq|].
    split; [reflexivity|]. intros Hfresh.
    split; [now apply map_size_insert_None | now apply insert_subseteq].
  - split; reflexivity.
Qed.

(** *** The retry pass *)

Lemma delivered_now_delete net (d : gmap string string) (f : string)
    (files : list string) :
  f ∉ files -> delivered_now net (delete f d) files = delivered_now net d files.
Proof.
  intros Hf. unfold delivered_now.
  induction files as [|k rest IH]; simpl; [reflexivity|].
  apply not_elem_of_cons in Hf as [Hne Hrest]. specialize (IH Hrest).
  destruct (net k); rewrite ?lookup_delete_ne by done;
    [destruct (d !! k)|..]; simpl; first [exact IH | f_equal; exact IH].
Qed.

Definition no_new_corrupt (before after : list LogEvent) : Prop :=
  forall k, LogCorruptDeleted k ∈ after -> LogCorruptDeleted k ∈ before.

Lemma no_new_corrupt_refl l : no_new_corrupt l l.
Proof. intros k H. exact H. Qed.

Lemma no_new_corrupt_snoc l l' e :
  no_new_corrupt l l' -> (forall k, e <> LogCorruptDeleted k) ->
  no_new_corrupt l (l' ++ [e]).
Proof.
  intros H He k Hin. apply elem_of_app in Hin as [Hin|Hin]; [now apply H|].
  apply list_elem_of_singleton in Hin. symmetry in Hin. now apply He in Hin.
Qed.

(** One file: what [resend] leaves behind. *)
Lemma resend_outcome (c : Connection) (f : string) (self : DroneEdge num) :
  exists self',
    resend c f self = inr self'
    /\ unsent_dir self'
       = (if decide (c = Delivered) then delete f (unsent_dir self)
          else unsent_dir self)
    /\ collector self'
       = collector self
         ++ (if decide (c = Delivered) then option_list (unsent_dir self !! f)
             else [])
    /\ _stop self' = _stop self
    /\ no_new_corrupt (log self) (log self').
Proof.
  unfold resend, read_bytes. simpl.
  destruct (unsent_dir self !! f) as [content|] eqn:Hf; simpl.
  - destruct c; simpl.
    + unfold unlink. simpl. rewrite Hf. eexists. split; [reflexivity|]. simpl.
      repeat split.
      repeat apply no_new_corrupt_snoc; try apply no_new_corrupt_refl; discriminate.
    + eexists. split; [reflexivity|]. simpl. rewrite app_nil_r. repeat split.
      repeat apply no_new_corrupt_snoc; try apply no_new_corrupt_refl; discriminate.
    + eexists. split; [reflexivity|]. simpl. rewrite app_nil_r. repeat split.
      repeat apply no_new_corrupt_snoc; try apply no_new_corrupt_refl; discriminate.
  - eexists. split; [reflexivity|]. simpl.
    assert (Hdel : delete f (unsent_dir self) = unsent_dir self)
      by now apply delete_id.
    destruct (decide (c = Delivered)); rewrite ?Hdel, app_nil_r; repeat split;
      repeat apply no_new_corrupt_snoc; try apply no_new_corrupt_refl; discriminate.
Qed.

Lemma resend_all_outcome net (files : list string) (self : DroneEdge num) :
  NoDup files -> _stop self = false ->
  exists self',
    resend_all net files self = inr self'
    /\ (forall k, unsent_dir self' !! k
                  = if decide (k ∈ files /\ net k = Delivered) then None
                    else unsent_dir self !! k)
    /\ collector self' = collector self ++ delivered_now net (unsent_dir self) files
    /\ no_new_corrupt (log self) (log self').
Proof.
  intros Hnd. revert self.
  induction Hnd as [|f rest Hf Hnd IH]; intros self Hstop; cbn [resend_all].
  - exists self. split; [reflexivity|]. split.
    + intros k. case_decide as H; [|reflexivity].
      destruct H as [H _]. now apply elem_of_nil in H.
    + split; [now rewrite app_nil_r | apply no_new_corrupt_refl].
  - rewrite Hstop.
    destruct (resend_outcome (net f) f self) as (self1 & -> & Hd & Hc & Hs & Hl).
    destruct (IH self1) as (self' & -> & Hd' & Hc' & Hl'); [congruence|].
    exists self'. split; [reflexivity|]. split; [|split].
    + intros k. rewrite Hd', Hd.
      destruct (decide (k = f)) as [->|Hne];
        repeat case_decide;
        rewrite ?lookup_delete_eq, ?lookup_delete_ne by done;
        try reflexivity; exfalso; set_solver.
    + rewrite Hc', Hc, Hd, <- app_assoc. f_equal.
      unfold delivered_now at 2. simpl. fold (delivered_now net (unsent_dir self) rest).
      case_decide as Hdel.
      * rewrite Hdel, delivered_now_delete by assumption.
        destruct (unsent_dir self !! f); reflexivity.
      * destruct (net f); [contradiction| |]; reflexivity.
    + intros k Hk. apply Hl, Hl', Hk.
Qed.

Lemma glob_json_NoDup (d : gmap string string) : NoDup (glob_json d).
Proof. unfold glob_json. apply NoDup_filter, NoDup_fst_map_to_list. Qed.

Lemma elem_of_glob_json (d : gmap string string) (name : string) :
  name ∈ glob_json d <-> is_json_name name = true /\ is_Some (d !! name).
Proof.
  unfold glob_json. rewrite list_elem_of_filter, list_elem_of_fmap.
  split.
  - intros [Hj [[k v] [-> Hin]]]. split; [exact Hj|].
    apply elem_of_map_to_list in Hin. simpl. eauto.
  - intros [Hj [v Hv]]. split; [exact Hj|].
    exists (name, v). split; [reflexivity|]. now apply elem_of_map_to_list.
Qed.

(** C7, as amended.  A retry pass that is not stopped returns normally.
    It takes the records whose name ends in [.json], each once, and hands
    the stored bytes of a record to its connection as they are, without
    looking at them: the collector receives exactly the contents of the
    records whose connection went through, a record whose connection went
    through is deleted, and a record whose connection failed stays in the
    store with the same bytes.  What happens to a record depends on its
    connection only, not on its content, and no record is ever deleted as
    corrupt. *)
Theorem retry_cycle_resends_stored_bytes (net : string -> Connection)
    (self : DroneEdge num) :
  _stop self = false ->
  exists self',
    retry_cycle net self = inr self'
    /\ NoDup (glob_json (unsent_dir self))
    /\ collector self'
       = collector self
         ++ delivered_now net (unsent_dir self) (glob_json (unsent_dir self))
    /\ (forall name content,
          unsent_dir self !! name = Some content ->
          is_json_name name = true ->
          (net name = Delivered ->
             unsent_dir self' !! name = None
             /\ content ∈ delivered_now net (unsent_dir self)
                            (glob_json (unsent_dir self)))
          /\ (net name <> Delivered ->
                unsent_dir self' !! name = Some content))
    /\ (forall name, is_json_name name = false ->
          unsent_dir self' !! name = unsent_dir self !! name)
    /\ no_new_corrupt (log self) (log self').
Proof.
  intros Hstop. unfold retry_cycle.
  pose proof (glob_json_NoDup (unsent_dir self)) as Hnd.
  destruct (decide (unsent_dir self = ∅)) as [Hempty|Hne].
  - exists self. split; [reflexivity|]. split; [exact Hnd|].
    assert (Hglob : glob_json (unsent_dir self) = []).
    { unfold glob_json. rewrite Hempty, map_to_list_empty. reflexivity. }
    rewrite Hglob. simpl. rewrite app_nil_r. split; [reflexivity|].
    split; [|split; [reflexivity | apply no_new_corrupt_refl]].
    intros name content Hin. rewrite Hempty, lookup_empty in Hin. discriminate.
  - destruct (resend_all_outcome net (glob_json (unsent_dir self)) self Hnd Hstop)
      as (self' & Hrun & Hd & Hc & Hl).
    exists self'. split; [exact Hrun|]. split; [exact Hnd|].
    split; [exact Hc|]. split; [|split; [|exact Hl]].
    + intros name content Hin Hj.
      assert (Hg : name ∈ glob_json (unsent_dir self)).
      { apply elem_of_glob_json. split; [exact Hj | eauto]. }
      split.
      * intros Hdel. split.
        -- rewrite Hd. case_decide as H; [reflexivity|]. destruct H. now split.
        -- unfold delivered_now. apply list_elem_of_omap.
           exists name. split; [exact Hg|]. now rewrite Hdel.
      * intros Hfail. rewrite Hd. case_decide as H; [|exact Hin].
        now destruct H as [_ H].
    + intros name Hj. rewrite Hd. case_decide as H; [|reflexivity].
      destruct H as [H _]. apply elem_of_glob_json in H as [H _]. congruence.
Qed.

End StoreAndForward.

(** ** Concrete runs of the delivery paths

    The runs below need some text for a report.  [sample_dumps] stands in
    for [json.dumps(asdict(rpt))]: it keeps the timestamp only.  Nothing
    proved above depends on it. *)
Definition sample_dumps (rpt : DroneReport.t Q) : string :=
  DroneReport.timestamp rpt.

Definition sample_batch : list (SensorReading.t Q) :=
  [SensorReading.mk "sensor1" 20%Q 40%Q "2025-05-14T14:29:37";
   SensorReading.mk "sensor2" 45%Q 95%Q "2025-05-14T14:29:38";
   SensorReading.mk "sensor1" 25%Q 45%Q "2025-05-14T14:29:39"].

(** An object without a humidity attribute. *)
Definition no_humidity : @ReadingObj Q :=
  @mkObj Q (Some "sensor9") (Some 99%Q) None.

Definition sample_env (c : Connection) : SendEnv :=
  mkSendEnv "2025-05-14T14:29:41" c "1747232981.5".

Lemma report_averages_valid_readings_witness :
  both_fields (no_humidity :: map as_obj sample_batch) <> []
  /\ exists rpt self',
       _send_report sample_dumps (sample_env Delivered)
         (no_humidity :: map as_obj sample_batch) [] DroneEdge_init = inr self'
       /\ gui_q self' = [rpt]
       /\ DroneReport.avg_temperature rpt = ((0 + 20 + 45 + 25) / 3)%Q
       /\ DroneReport.sensor_count rpt = 2.
Proof.
  assert (Hne : both_fields (no_humidity :: map as_obj sample_batch) <> [])
    by discriminate.
  split; [exact Hne|].
  destruct (report_averages_valid_readings sample_dumps (sample_env Delivered)
              (no_humidity :: map as_obj sample_batch) [] DroneEdge_init)
    as [H _].
  destruct (H Hne) as (rpt & self' & Hrun & Hq & _ & _ & Ht & _ & Hs & _).
  exists rpt, self'. split; [exact Hrun|]. split; [exact Hq|].
  split; [exact Ht | exact Hs].
Defined.

Lemma send_report_stores_on_failure_witness :
  filter (fun r => has_T_H r = true) (map as_obj sample_batch) <> []
  /\ exists self',
       _send_report sample_dumps (sample_env Unreachable)
         (map as_obj sample_batch) [] DroneEdge_init = inr self'
       /\ unsent_dir self' !! "1747232981.5.json"
          = Some ("2025-05-14T14:29:41" +:+ DELIM)
       /\ collector self' = [].
Proof.
  assert (Hne : filter (fun r => has_T_H r = true) (map as_obj sample_batch) <> [])
    by discriminate.
  split; [exact Hne|].
  destruct (send_report_stores_on_failure sample_dumps (sample_env Unreachable)
              (map as_obj sample_batch) [] DroneEdge_init Hne)
    as (self' & Hrun & Hfail & _).
  destruct (Hfail eq_refl) as (_ & Hlook & Hcol & _).
  exists self'. split; [exact Hrun|]. split; [exact Hlook | exact Hcol].
Defined.

(** C6, counterexample.  The store already holds a record named
    [1747232981.5.json] and the clock reads 1747232981.5 when a delivery
    fails: the report is written over that record.  The store has one
    record before and one after, and the bytes of the older report are
    gone. *)
Lemma send_report_overwrites_counterexample :
  let older := "2025-05-14T14:29:39" +:+ DELIM in
  let self := with_unsent {[ "1747232981.5.json" := older ]} (@DroneEdge_init Q) in
  exists self',
    _send_report sample_dumps (sample_env Unreachable)
      (map as_obj sample_batch) [] self = inr self'
    /\ size (unsent_dir self) = 1%nat
    /\ size (unsent_dir self') = 1%nat
    /\ unsent_dir self !! "1747232981.5.json" = Some older
    /\ unsent_dir self' !! "1747232981.5.json"
       = Some ("2025-05-14T14:29:41" +:+ DELIM)
    /\ (forall name, unsent_dir self' !! name <> Some older).
Proof.
  intros older self. eexists. split; [reflexivity|]. simpl.
  rewrite insert_singleton_eq.
  split; [apply map_size_singleton|]. split; [apply map_size_singleton|].
  split; [apply lookup_singleton_eq|]. split; [apply lookup_singleton_eq|].
  intros name Hname. apply lookup_singleton_Some in Hname as [_ Hname].
  discriminate Hname.
Qed.

Definition two_records : gmap string string :=
  {[ "1747232979.5.json" := "2025-05-14T14:29:39" +:+ DELIM;
     "1747232981.5.json" := "2025-05-14T14:29:41" +:+ DELIM ]}.

(** The collector is back for the first record only. *)
Definition first_only (name : string) : Connection :=
  if String.eqb name "1747232979.5.json" then Delivered else Unreachable.

Lemma retry_cycle_resends_stored_bytes_witness :
  let self := with_unsent two_records (@DroneEdge_init Q) in
  _stop self = false
  /\ exists self',
       retry_cycle first_only self = inr self'
       /\ unsent_dir self' !! "1747232979.5.json" = None
       /\ unsent_dir self' !! "1747232981.5.json"
          = Some ("2025-05-14T14:29:41" +:+ DELIM).
Proof.
  intros self.
  assert (Hstop : _stop self = false) by reflexivity.
  split; [exact Hstop|].
  destruct (retry_cycle_resends_stored_bytes first_only self Hstop)
    as (self' & Hrun & _ & _ & Hrec & _).
  exists self'. split; [exact Hrun|]. split.
  - refine (proj1 (proj1 (Hrec "1747232979.5.json" _ _ _) _));
      [reflexivity | reflexivity | reflexivity].
  - refine (proj2 (Hrec "1747232981.5.json" _ _ _) _);
      [reflexivity | reflexivity | discriminate].
Defined.

(** C7, counterexample.  The only record holds [{broken], which is not the
    encoding of any report.  With the collector unreachable the pass
    leaves the record where it is; with the collector reachable it sends
    [{broken] as it is and then deletes the record as delivered.  In
    neither case is anything logged about corrupt content. *)
Lemma retry_cycle_corrupt_counterexample :
  let self := with_unsent {[ "1747232981.5.json" := "{broken" ]} (@DroneEdge_init Q) in
  (exists self',
     retry_cycle (fun _ => Unreachable) self = inr self'
     /\ unsent_dir self' !! "1747232981.5.json" = Some "{broken"
     /\ log self' = [LogResendAttempt "1747232981.5.json";
                     LogResendFailed "1747232981.5.json"])
  /\ (exists self',
        retry_cycle (fun _ => Delivered) self = inr self'
        /\ collector self' = ["{broken"]
        /\ log self' = [LogResendAttempt "1747232981.5.json";
                        LogResent "1747232981.5.json"]).
Proof.
  intros self. split; eexists; (split; [vm_compute; reflexivity|]); split;
    vm_compute; reflexivity.
Qed.

(** ** The forwarding loop *)

Section ForwardLoop.
Context {num : Type} {PN : PyNum num}.
Variable json_dumps : DroneReport.t num -> string.

(** The entry the loop appends to [anomalies] for an anomalous reading. *)
Definition anomaly_event (reading : SensorReading.t num) : AnomalyEvent num :=
  mkAnomaly (SensorReading.sensor_id reading)
    (SensorReading.temperature reading, SensorReading.humidity reading)
    (SensorReading.timestamp reading).

Definition new_anomalies (taken : option (SensorReading.t num))
  : list (AnomalyEvent num) :=
  match taken with
  | Some reading => if is_anomaly reading then [anomaly_event reading] else []
  | None => []
  end.

(** The locals once the reading handed over by the queue, if any, has
    been appended. *)
Definition take_reading (taken : option (SensorReading.t num)) (loc : Locals)
  : Locals :=
  mkLocals (batch loc ++ option_list taken)
    (anomalies loc ++ new_anomalies taken)
    (last_known_returning_status loc).

Lemma queue_reading_flush_condition (inc : option (SensorReading.t num))
    (self : DroneEdge num) (loc : Locals) :
  queue_reading inc self loc = flush_condition self (take_reading inc loc).
Proof.
  unfold queue_reading, flush_condition, take_reading, new_anomalies, anomaly_event.
  destruct loc as [bt an lk], inc as [rd|]; simpl; rewrite ?app_nil_r;
    try destruct (is_anomaly rd); rewrite ?app_nil_r;
    destruct (returning (battery self)); rewrite ?andb_false_r; reflexivity.
Qed.

Lemma flush_condition_returning (self : DroneEdge num) (loc : Locals) :
  returning (battery self) = true -> flush_condition self loc = (loc, []).
Proof.
  intros Hr. unfold flush_condition. now rewrite Hr, andb_false_r.
Qed.

(** The part of the state [status_change] leaves alone. *)
Lemma status_change_frame (self : DroneEdge num) (loc : Locals) :
  let self' := (status_change self loc).1.1 in
  battery self' = battery self /\ _stop self' = _stop self
  /\ gui_q self' = gui_q self /\ unsent_dir self' = unsent_dir self
  /\ collector self' = collector self /\ log self' = log self.
Proof.
  unfold status_change, with_charging_log, with_travel.
  destruct (last_known_returning_status loc), (returning (battery self)),
    (batch loc); simpl; repeat split; reflexivity.
Qed.

Lemma status_change_locals (self : DroneEdge num) (loc : Locals) :
  let becomes_active :=
    last_known_returning_status loc && negb (returning (battery self)) in
  let loc' := (status_change self loc).1.2 in
  let calls := (status_change self loc).2 in
  last_known_returning_status loc' = returning (battery self)
  /\ (becomes_active = false ->
      calls = [] /\ batch loc' = batch loc /\ anomalies loc' = anomalies loc)
  /\ (becomes_active = true -> batch loc = [] ->
      calls = [] /\ batch loc' = [] /\ anomalies loc' = anomalies loc)
  /\ (becomes_active = true -> batch loc <> [] ->
      calls = [(batch loc, anomalies loc)]
      /\ batch loc' = [] /\ anomalies loc' = []).
Proof.
  unfold status_change.
  destruct (last_known_returning_status loc), (returning (battery self)),
    (batch loc) eqn:Hb; simpl; repeat split; intros;
    try discriminate; try congruence; reflexivity.
Qed.

(** The state and the locals a turn ends with, when it does not break. *)
Lemma forward_iteration_next (td : bool) (inc : option (SensorReading.t num))
    (self : DroneEdge num) (loc : Locals) :
  let self1 := if td then (battery_tick self).1 else self in
  let r := forward_iteration td inc self loc in
  r.2 = NextIteration ->
  r.1.1.1 = (status_change self1 loc).1.1
  /\ r.1.1.2 = (flush_condition (status_change self1 loc).1.1
                  (take_reading inc (status_change self1 loc).1.2)).1
  /\ r.1.2 = (status_change self1 loc).2
             ++ (flush_condition (status_change self1 loc).1.1
                   (take_reading inc (status_change self1 loc).1.2)).2.
Proof.
  unfold forward_iteration.
  destruct (if td then battery_tick self else (self, NextIteration))
    as [self1 ctl] eqn:Hphase.
  assert (Hself1 : (if td then (battery_tick self).1 else self) = self1).
  { destruct td; [now rewrite Hphase | congruence]. }
  rewrite Hself1. destruct ctl; [|discriminate].
  destruct (status_change self1 loc) as [[self2 loc2] out1]. cbn [fst snd].
  rewrite queue_reading_flush_condition.
  destruct (flush_condition self2 (take_reading inc loc2)) as [loc3 out2].
  simpl. intros _. repeat split; reflexivity.
Qed.

Lemma forward_iteration_break (td : bool) (inc : option (SensorReading.t num))
    (self : DroneEdge num) (loc : Locals) :
  let r := forward_iteration td inc self loc in
  r.2 = Break ->
  r.1.1.1 = (battery_tick self).1 /\ r.1.1.2 = loc /\ r.1.2 = [] /\ td = true.
Proof.
  unfold forward_iteration.
  destruct td; simpl.
  - destruct (battery_tick self) as [self1 ctl]. destruct ctl.
    + destruct (status_change self1 loc) as [[self2 loc2] out1].
      destruct (queue_reading inc self2 loc2) as [loc3 out2]. discriminate.
    + simpl. intros _. repeat split; reflexivity.
  - destruct (status_change self loc) as [[self2 loc2] out1].
    destruct (queue_reading inc self2 loc2) as [loc3 out2]. discriminate.
Qed.

Lemma battery_tick_battery (self : DroneEdge num) :
  battery (battery_tick self).1
  = tick (should_charge_this_tick self).1 (battery self)
  /\ ((battery_tick self).2 = Break -> level (battery (battery_tick self).1) <= 0).
Proof.
  unfold battery_tick, should_charge_this_tick, stop, with_stop,
    with_charging_log, with_travel, with_battery.
  destruct self as [b trv clog stp gq ud col lg]; simpl.
  destruct (returning b); [destruct (0 <? trv)|]; simpl;
    match goal with
    | |- context [level ?x <=? 0] => destruct (Z.leb_spec (level x) 0)
    end; destruct stp; simpl; split; try reflexivity; try discriminate;
    intros _; assumption.
Qed.

Lemma tick_flat_returning (c : bool) (b : Battery) :
  0 < LOW_BATTERY_THRESHOLD b -> level (tick c b) <= 0 ->
  returning (tick c b) = true.
Proof. tick_cases b c; intros; try reflexivity; lia. Qed.

(** A turn that shuts the node down leaves it returning, as long as the
    low threshold is positive. *)
Lemma battery_tick_break (self : DroneEdge num) :
  0 < LOW_BATTERY_THRESHOLD (battery self) ->
  (battery_tick self).2 = Break ->
  returning (battery (battery_tick self).1) = true.
Proof.
  intros Hlow Hbreak.
  destruct (battery_tick_battery self) as [Hb Hl].
  specialize (Hl Hbreak). rewrite Hb in *. now apply tick_flat_returning.
Qed.

Lemma filter_as_obj (l : list (SensorReading.t num)) :
  filter (fun r => has_T_H r = true) (map as_obj l) = map as_obj l.
Proof.
  induction l as [|r l IH]; [reflexivity|]. simpl.
  rewrite filter_cons. simpl. now rewrite IH.
Qed.

Lemma both_fields_as_obj (l : list (SensorReading.t num)) :
  both_fields (map as_obj l)
  = (fun r => (SensorReading.temperature r, SensorReading.humidity r,
               Some (SensorReading.sensor_id r))) <$> l.
Proof. induction l as [|r l IH]; [reflexivity|]. simpl. now rewrite IH. Qed.

(** Delivering the flush of a non-empty batch puts one report on the GUI
    queue, built from all the readings of the batch and the anomalies
    handed over. *)
Lemma deliver_one (env : SendEnv) (bt : list (SensorReading.t num))
    (an : list (AnomalyEvent num)) (self : DroneEdge num) :
  bt <> [] ->
  exists rpt self',
    deliver json_dumps env [(bt, an)] self = inr self'
    /\ gui_q self' = gui_q self ++ [rpt]
    /\ DroneReport.anomalies rpt = an
    /\ DroneReport.avg_temperature rpt
       = arithmetic_mean (SensorReading.temperature <$> bt)
    /\ DroneReport.avg_humidity rpt
       = arithmetic_mean (SensorReading.humidity <$> bt)
    /\ (connection env = Delivered ->
        collector self' = collector self ++ [to_bytes json_dumps rpt])
    /\ (connection env = Unreachable ->
        unsent_dir self' !! unsent_name env = Some (to_bytes json_dumps rpt)).
Proof.
  intros Hne. simpl.
  assert (Hv : filter (fun r => has_T_H r = true) (map as_obj bt) <> []).
  { rewrite filter_as_obj. destruct bt; [now destruct Hne | discriminate]. }
  rewrite (send_report_outcome json_dumps env (map as_obj bt) an self Hv).
  pose proof (make_rpt_fields env (map as_obj bt) an self) as (Ht & Hh & _ & Ha).
  simpl in Ht, Hh, Ha. rewrite both_fields_as_obj in Ht, Hh.
  rewrite <- !list_fmap_compose in Ht, Hh.
  eexists. eexists. split; [reflexivity|].
  split; [destruct (connection env); reflexivity|].
  split; [exact Ha|]. split; [exact Ht|]. split; [exact Hh|].
  split; intros ->; simpl; [reflexivity | apply lookup_insert_eq].
Qed.

(** C3.  In a turn of the forwarding loop that ends with [returning] set,
    [_send_report] is not called, whatever the size of the batch: the
    reading taken from the queue, if any, is appended to the batch (and its
    anomaly to the anomaly list) and both are kept.  In a turn that finds
    [returning] cleared after it was set in the turn before, a non-empty
    batch is flushed at once, whatever its size: [_send_report] is called
    once, with the whole batch and the whole anomaly list, which gives one
    report carrying those anomalies; the batch and the anomaly list are
    emptied, and then only hold what the reading taken in this very turn
    adds. *)
Theorem forward_loop_flush_discipline (td : bool)
    (inc : option (SensorReading.t num)) (self : DroneEdge num) (loc : Locals)
    (env : SendEnv) :
  let r := forward_iteration td inc self loc in
  let self' := r.1.1.1 in
  let loc' := r.1.1.2 in
  let calls := r.1.2 in
  let taken := match r.2 with Break => None | NextIteration => inc end in
  (returning (battery self') = true ->
     calls = []
     /\ batch loc' = batch loc ++ option_list taken
     /\ anomalies loc' = anomalies loc ++ new_anomalies taken)
  /\ (0 < LOW_BATTERY_THRESHOLD (battery self) ->
      last_known_returning_status loc = true ->
      returning (battery self') = false ->
      batch loc <> [] ->
      calls = [(batch loc, anomalies loc)]
      /\ batch loc' = option_list inc
      /\ anomalies loc' = new_anomalies inc
      /\ exists rpt self'',
           deliver json_dumps env calls self' = inr self''
           /\ gui_q self'' = gui_q self' ++ [rpt]
           /\ DroneReport.anomalies rpt = anomalies loc
           /\ DroneReport.avg_temperature rpt
              = arithmetic_mean (SensorReading.temperature <$> batch loc)
           /\ DroneReport.avg_humidity rpt
              = arithmetic_mean (SensorReading.humidity <$> batch loc)).
Proof.
  intros r self' loc' calls taken.
  pose proof (forward_iteration_next td inc self loc) as Hnext.
  pose proof (forward_iteration_break td inc self loc) as Hbreak.
  fold r in Hnext, Hbreak. simpl in Hnext, Hbreak.
  set (self1 := if td then (battery_tick self).1 else self) in *.
  pose proof (status_change_frame self1 loc) as (Hbat & _).
  pose proof (status_change_locals self1 loc) as (_ & Hstay & _ & Hflush).
  simpl in Hbat, Hstay, Hflush.
  subst self' loc' calls taken.
  destruct (r.2) eqn:Hctl.
  - destruct (Hnext eq_refl) as (Hs & Hl & Hc). rewrite Hs, Hl, Hc, Hbat.
    split.
    + intros Hr. rewrite flush_condition_returning by now rewrite Hbat.
      rewrite Hr, andb_false_r in Hstay.
      destruct (Hstay eq_refl) as (-> & Hb & Ha). simpl.
      now rewrite Hb, Ha.
    + intros _ Hlast Hr Hne. rewrite Hlast, Hr in Hflush.
      destruct (Hflush eq_refl Hne) as (-> & Hb & Ha).
      unfold flush_condition, take_reading. rewrite Hb, Ha. simpl.
      assert (Hsmall : (FORWARD_BATCH <=? len (option_list inc)) = false).
      { destruct inc; reflexivity. }
      rewrite Hsmall. simpl.
      split; [reflexivity|]. split; [reflexivity|]. split; [reflexivity|].
      destruct (deliver_one env (batch loc) (anomalies loc)
                  (status_change self1 loc).1.1 Hne)
        as (rpt & self'' & H1 & H2 & H3 & H4 & H5 & _).
      exists rpt, self''. repeat split; assumption.
  - destruct (Hbreak eq_refl) as (Hs & Hl & Hc & ->). rewrite Hs, Hl, Hc.
    split.
    + intros _. simpl. now rewrite !app_nil_r.
    + intros Hlow _ Hr. exfalso.
      assert (Hb2 : (battery_tick self).2 = Break).
      { subst r. unfold forward_iteration in Hctl.
        destruct (battery_tick self) as [s1 c1]. destruct c1; [|reflexivity].
        destruct (status_change s1 loc) as [[s2 l2] o1].
        destruct (queue_reading inc s2 l2). discriminate. }
      rewrite (battery_tick_break self Hlow Hb2) in Hr. discriminate.
Qed.

(** *** The battery side of the loop

    What a turn does to the battery, the countdown, the stop flag and
    [last_known_returning_status] depends on these four and on the clock
    test only. *)
Record Power := mkPower {
  pw_battery : Battery;
  pw_travel : Z;
  pw_last : bool;
  pw_stop : bool
}.

Definition power_of (self : DroneEdge num) (loc : @Locals num) : Power :=
  mkPower (battery self) (travel_ticks_remaining self)
    (last_known_returning_status loc) (_stop self).

(** A node and locals with the given battery side and nothing else. *)
Definition bare (p : Power) : DroneEdge num * @Locals num :=
  (mkDroneEdge (pw_battery p) (pw_travel p) false (pw_stop p) [] ∅ [] [],
   mkLocals [] [] (pw_last p)).

Definition power_turn (td : bool) (p : Power) : Power * Control :=
  let r := forward_iteration td None (bare p).1 (bare p).2 in
  (power_of r.1.1.1 r.1.1.2, r.2).

Lemma forward_iteration_power (td : bool) (inc : option (SensorReading.t num))
    (self : DroneEdge num) (loc : Locals) :
  let r := forward_iteration td inc self loc in
  (power_of r.1.1.1 r.1.1.2, r.2) = power_turn td (power_of self loc).
Proof.
  unfold power_turn, bare, power_of, forward_iteration, battery_tick,
    should_charge_this_tick, stop, status_change, queue_reading,
    flush_condition, with_stop, with_charging_log, with_travel, with_battery.
  destruct self as [b trv clog stp gq ud col lg];
  destruct loc as [bt an lk]; simpl.
  destruct td; simpl;
    repeat (simpl;
            match goal with
            | |- context [if ?x then _ else _] => destruct x eqn:?
            | |- context [match ?x with [] => _ | _ :: _ => _ end] => destruct x
            | |- context [match ?x with Some _ => _ | None => _ end] => destruct x
            end);
    reflexivity.
Qed.

(** [_send_report] always returns normally and leaves the battery side of
    the node alone. *)
Lemma send_report_frame (env : SendEnv) (readings : list (@ReadingObj num))
    (an : list (AnomalyEvent num)) (self : DroneEdge num) :
  exists self',
    _send_report json_dumps env readings an self = inr self'
    /\ battery self' = battery self
    /\ travel_ticks_remaining self' = travel_ticks_remaining self
    /\ _stop self' = _stop self.
Proof.
  unfold _send_report. destruct readings as [|r rs]; [now exists self|].
  destruct (filter _ (r :: rs)); [eexists; repeat split; reflexivity|].
  destruct (connection env); eexists; repeat split; reflexivity.
Qed.

Lemma deliver_frame (env : SendEnv) (calls : list (@Flush num))
    (self : DroneEdge num) :
  exists self',
    deliver json_dumps env calls self = inr self'
    /\ battery self' = battery self
    /\ travel_ticks_remaining self' = travel_ticks_remaining self
    /\ _stop self' = _stop self.
Proof.
  revert self. induction calls as [|[bt an] rest IH]; intros self; simpl.
  - now exists self.
  - destruct (send_report_frame env (map as_obj bt) an self)
      as (self1 & -> & Hb & Ht & Hs).
    destruct (IH self1) as (self' & -> & Hb' & Ht' & Hs').
    exists self'. repeat split; congruence.
Qed.

(** The battery side of a run of turns. *)
Fixpoint power_run (tds : list bool) (p : Power) : Power :=
  match tds with
  | [] => p
  | td :: rest =>
    if pw_stop p then p
    else match (power_turn td p).2 with
         | Break => (power_turn td p).1
         | NextIteration => power_run rest (power_turn td p).1
         end
  end.

(** The loop returns normally for every run of turns, and its battery
    side is the one [power_run] computes. *)
Lemma forward_turns_power (turns : list (@Turn num)) (self : DroneEdge num)
    (loc : Locals) :
  exists self' loc',
    forward_turns json_dumps turns self loc = inr (self', loc')
    /\ power_of self' loc' = power_run (tick_due <$> turns) (power_of self loc).
Proof.
  revert self loc. induction turns as [|t rest IH]; intros self loc;
    cbn [forward_turns power_run fmap list_fmap].
  - now exists self, loc.
  - change (pw_stop (power_of self loc)) with (_stop self).
    destruct (_stop self); [now exists self, loc|].
    pose proof (forward_iteration_power (tick_due t) (incoming t) self loc) as Hp.
    cbv zeta in Hp.
    destruct (forward_iteration (tick_due t) (incoming t) self loc)
      as [[[self1 loc1] calls] ctl].
    cbn [fst snd] in Hp. rewrite <- Hp. cbn [fst snd].
    destruct (deliver_frame (send_env t) calls self1)
      as (self2 & -> & Hb & Ht & Hs).
    assert (Hpow : power_of self2 loc1 = power_of self1 loc1).
    { unfold power_of. now rewrite Hb, Ht, Hs. }
    destruct ctl.
    + destruct (IH self2 loc1) as (self' & loc' & -> & Hrun).
      exists self', loc'. split; [reflexivity|]. now rewrite Hrun, Hpow.
    + exists self2, loc1. split; [reflexivity | exact Hpow].
Qed.

(** *** The node over time

    What can happen to a node: a turn of the forwarding loop, or one of the
    two operator controls between two turns. *)
Inductive NodeEvent :=
| EvTurn (t : @Turn num)
| EvManualDrain (amount : Z)
| EvSetThreshold (new_threshold : Z).

Definition node_step (ev : NodeEvent) (st : DroneEdge num * @Locals num)
  : exn + (DroneEdge num * @Locals num) :=
  match ev with
  | EvTurn t => forward_turns json_dumps [t] st.1 st.2
  | EvManualDrain amount => inr (manual_drain_battery amount st.1, st.2)
  | EvSetThreshold n => inr ((set_low_battery_threshold n st.1).2, st.2)
  end.

Fixpoint node_run (evs : list NodeEvent) (st : DroneEdge num * @Locals num)
  : exn + (DroneEdge num * @Locals num) :=
  match evs with
  | [] => inr st
  | ev :: rest =>
    match node_step ev st with
    | inl e => inl e
    | inr st1 => node_run rest st1
    end
  end.

Definition countdown_ok (self : DroneEdge num) : Prop :=
  0 <= travel_ticks_remaining self <= 2.

Lemma power_turn_travel (td : bool) (p : Power) :
  0 <= pw_travel p <= 2 -> 0 <= pw_travel (power_turn td p).1 <= 2.
Proof.
  unfold power_turn, bare, power_of, forward_iteration, battery_tick,
    should_charge_this_tick, stop, status_change, queue_reading,
    flush_condition, with_stop, with_charging_log, with_travel, with_battery.
  destruct p as [b trv lk stp]; simpl. intros Htrv.
  destruct td; simpl;
    repeat (simpl;
            match goal with
            | |- context [if ?x then _ else _] => destruct x eqn:?
            end);
    simpl; try lia.
  all: match goal with H : (0 <? _) = true |- _ => apply Z.ltb_lt in H end; lia.
Qed.

Lemma node_step_countdown (ev : NodeEvent) (st : DroneEdge num * @Locals num) :
  countdown_ok st.1 ->
  exists st', node_step ev st = inr st' /\ countdown_ok st'.1.
Proof.
  unfold countdown_ok. destruct st as [self loc]. intros Hok.
  destruct ev as [t|amount|n]; cbn [node_step fst snd].
  - destruct (forward_turns_power [t] self loc) as (self' & loc' & -> & Hp).
    exists (self', loc'). split; [reflexivity|]. cbn [fst].
    change (travel_ticks_remaining self') with (pw_travel (power_of self' loc')).
    rewrite Hp. cbn [fmap list_fmap power_run].
    destruct (pw_stop (power_of self loc)); [exact Hok|].
    pose proof (power_turn_travel (tick_due t) (power_of self loc) Hok) as H.
    destruct ((power_turn (tick_due t) (power_of self loc)).2); exact H.
  - eexists. split; [reflexivity|]. cbn [fst].
    unfold manual_drain_battery, with_charging_log, with_travel, with_battery.
    destruct self as [b trv clog stp gq ud col lg]; simpl in *.
    repeat match goal with
           | |- context [if ?x then _ else _] => destruct x eqn:?
           end; simpl; lia.
  - eexists. split; [reflexivity|]. cbn [fst].
    unfold set_low_battery_threshold, with_charging_log, with_travel,
      with_battery, logging.
    destruct self as [b trv clog stp gq ud col lg]; simpl in *.
    repeat match goal with
           | |- context [if ?x then _ else _] => destruct x eqn:?
           end; simpl; lia.
Qed.

Lemma node_run_countdown (evs : list NodeEvent) (st : DroneEdge num * @Locals num) :
  countdown_ok st.1 ->
  exists st', node_run evs st = inr st' /\ countdown_ok st'.1.
Proof.
  revert st. induction evs as [|ev rest IH]; intros st Hok; simpl.
  - now exists st.
  - destruct (node_step_countdown ev st Hok) as (st1 & -> & Hok1).
    now apply IH.
Qed.

Lemma should_charge_iff (self : DroneEdge num) :
  (should_charge_this_tick self).1 = true
  <-> returning (battery self) = true /\ travel_ticks_remaining self <= 0.
Proof.
  unfold should_charge_this_tick.
  destruct (returning (battery self));
    [destruct (Z.ltb_spec 0 (travel_ticks_remaining self))|]; simpl;
    split; try (intros [? ?]); intros; try discriminate; try lia; auto.
Qed.

(** The low threshold of a node never moves: no turn and no control writes
    it, so it is the 20 of [__init__] in every state the node reaches. *)
Lemma power_turn_low_threshold (td : bool) (p : Power) :
  LOW_BATTERY_THRESHOLD (pw_battery (power_turn td p).1)
  = LOW_BATTERY_THRESHOLD (pw_battery p).
Proof.
  unfold power_turn, bare, power_of, forward_iteration, battery_tick,
    should_charge_this_tick, stop, status_change, queue_reading,
    flush_condition, with_stop, with_charging_log, with_travel, with_battery.
  destruct p as [b trv lk stp]; simpl.
  destruct td; simpl;
    repeat (simpl;
            match goal with
            | |- context [if ?x then _ else _] => destruct x eqn:?
            end);
    simpl; rewrite ?tick_low_threshold; reflexivity.
Qed.

Lemma node_step_low_threshold (ev : NodeEvent) (st : DroneEdge num * @Locals num) :
  forall st', node_step ev st = inr st' ->
  LOW_BATTERY_THRESHOLD (battery st'.1) = LOW_BATTERY_THRESHOLD (battery st.1).
Proof.
  destruct st as [self loc]. intros st'.
  destruct ev as [t|amount|n]; cbn [node_step fst snd].
  - destruct (forward_turns_power [t] self loc) as (self' & loc' & -> & Hp).
    intros [= <-]. cbn [fst].
    change (battery self') with (pw_battery (power_of self' loc')).
    rewrite Hp. cbn [fmap list_fmap power_run].
    destruct (pw_stop (power_of self loc)); [reflexivity|].
    pose proof (power_turn_low_threshold (tick_due t) (power_of self loc)) as H.
    destruct ((power_turn (tick_due t) (power_of self loc)).2); exact H.
  - intros [= <-]. cbn [fst]. apply manual_drain_rates.
  - intros [= <-]. cbn [fst].
    unfold set_low_battery_threshold, with_charging_log, with_travel,
      with_battery, logging, set_returning.
    destruct self as [b trv clog stp gq ud col lg]; simpl.
    repeat match goal with
           | |- context [if ?x then _ else _] => destruct x eqn:?
           end; reflexivity.
Qed.

Lemma node_run_low_threshold (evs : list NodeEvent) :
  forall st', node_run evs (DroneEdge_init, Locals_init DroneEdge_init) = inr st' ->
  LOW_BATTERY_THRESHOLD (battery st'.1) = 20.
Proof.
  assert (Hgen : forall st st', node_run evs st = inr st' ->
            LOW_BATTERY_THRESHOLD (battery st'.1)
            = LOW_BATTERY_THRESHOLD (battery st.1)).
  { induction evs as [|ev rest IH]; intros st st'; simpl.
    - now intros [= <-].
    - destruct (node_step ev st) as [e|st1] eqn:Hstep; [discriminate|].
      intros Hrun. rewrite (IH st1 st' Hrun).
      now apply (node_step_low_threshold ev st). }
  intros st' Hrun. now rewrite (Hgen _ _ Hrun).
Qed.

(** *** The run from a full battery *)

(** The charging decision, on the battery side alone. *)
Definition charging_next (p : Power) : bool :=
  returning (pw_battery p) && negb (0 <? pw_travel p).

Lemma should_charge_power (self : DroneEdge num) (loc : Locals) :
  (should_charge_this_tick self).1 = charging_next (power_of self loc).
Proof.
  unfold should_charge_this_tick, charging_next, power_of. simpl.
  destruct (returning (battery self)); [destruct (0 <? _)|]; reflexivity.
Qed.

(** Level, [returning], countdown and charging decision for the next tick. *)
Definition power_row (p : Power) : Z * bool * Z * bool :=
  (level (pw_battery p), returning (pw_battery p), pw_travel p, charging_next p).

(** The same four after [n] ticks of a fresh node, for [n] up to 37: the
    level falls by 3 a tick down to 13 at tick 29 and then rises by 10 a
    tick; [returning] holds from tick 27 to tick 36; the countdown is 2
    after tick 27 and 1 after tick 28; charging is decided for ticks 30 to
    37. *)
Definition scenario_row (n : nat) : Z * bool * Z * bool :=
  let k := Z.of_nat n in
  (if k <=? 29 then 100 - 3 * k else 13 + 10 * (k - 29),
   (27 <=? k) && (k <=? 36),
   if k =? 27 then 2 else if k =? 28 then 1 else 0,
   (29 <=? k) && (k <=? 36)).

Definition fresh_power : Power :=
  power_of DroneEdge_init (Locals_init DroneEdge_init).

Lemma scenario_rows :
  forallb (fun n => bool_decide
                      (power_row (power_run (replicate n true) fresh_power)
                       = scenario_row n))
          (seq 0 38) = true.
Proof. vm_compute. reflexivity. Qed.

Lemma scenario_power (n : nat) :
  (n <= 37)%nat ->
  power_row (power_run (replicate n true) fresh_power) = scenario_row n.
Proof.
  intros Hn. pose proof scenario_rows as H.
  rewrite forallb_forall in H.
  assert (Hin : In n (seq 0 38)) by (apply in_seq; lia).
  specialize (H n Hin). now apply bool_decide_eq_true in H.
Qed.

Lemma tick_due_all (turns : list (@Turn num)) :
  (forall t, t ∈ turns -> tick_due t = true) ->
  tick_due <$> turns = replicate (length turns) true.
Proof.
  induction turns as [|t rest IH]; intros Hall; [reflexivity|]. simpl.
  rewrite (Hall t) by left. f_equal. apply IH. intros t' Ht'. apply Hall. now right.
Qed.

(** C4.  The charging argument of a battery tick is true exactly when the
    node is returning and its travel countdown, which is always 0, 1 or 2,
    is 0; this holds in every state the node reaches from its initial
    state through turns of the loop, manual drains and threshold changes.
    In the run of a fresh node (low threshold 20, drain 3, recharge 10,
    level 100) whose every turn ticks the battery, the state after [n]
    ticks is [scenario_row n] for every [n] up to 37: tick 27 brings the
    level to 19 and sets [returning], and the countdown is 2; ticks 28 and
    29 are not charging and take the level to 16 and 13; ticks 30 to 37
    are charging and add 10 each, up to 93 at tick 37, where [returning] is
    cleared. *)
Theorem charging_after_travel (evs : list NodeEvent) (turns : list (@Turn num)) :
  (exists self loc,
     node_run evs (DroneEdge_init, Locals_init DroneEdge_init) = inr (self, loc)
     /\ 0 <= travel_ticks_remaining self <= 2
     /\ ((should_charge_this_tick self).1 = true
         <-> returning (battery self) = true /\ travel_ticks_remaining self = 0))
  /\ ((forall t, t ∈ turns -> tick_due t = true) ->
      (length turns <= 37)%nat ->
      exists self loc,
        _forward_loop json_dumps turns DroneEdge_init = inr (self, loc)
        /\ (level (battery self), returning (battery self),
            travel_ticks_remaining self, (should_charge_this_tick self).1)
           = scenario_row (length turns))
  /\ scenario_row <$> [26; 27; 28; 29; 30; 31; 36; 37]%nat
     = [(22, false, 0, false); (19, true, 2, false); (16, true, 1, false);
        (13, true, 0, true); (23, true, 0, true); (33, true, 0, true);
        (83, true, 0, true); (93, false, 0, false)].
Proof.
  split; [|split; [|reflexivity]].
  - destruct (node_run_countdown evs (DroneEdge_init, Locals_init DroneEdge_init))
      as ([self loc] & Hrun & Hok); [unfold countdown_ok; simpl; lia|].
    exists self, loc. split; [exact Hrun|]. unfold countdown_ok in Hok.
    cbn [fst] in Hok. split; [exact Hok|].
    rewrite should_charge_iff. split; intros [Hr Ht]; (split; [exact Hr | lia]).
  - intros Hall Hlen. unfold _forward_loop.
    destruct (forward_turns_power turns DroneEdge_init (Locals_init DroneEdge_init))
      as (self & loc & Hrun & Hp).
    exists self, loc. split; [exact Hrun|].
    rewrite (should_charge_power self loc).
    change (level (battery self), returning (battery self),
            travel_ticks_remaining self, charging_next (power_of self loc))
      with (power_row (power_of self loc)).
    rewrite Hp, (tick_due_all turns Hall). now apply scenario_power.
Qed.

End ForwardLoop.

(** ** Concrete runs of the forwarding loop *)

(** Three readings queued before the node started returning, the second
    of them anomalous; the node has been charging and is at 83. *)
Definition charging_node : DroneEdge Q :=
  with_battery (mkBattery 83 3 10 20 true) DroneEdge_init.

Definition queued_locals : @Locals Q :=
  mkLocals sample_batch
    [mkAnomaly "sensor2" (45%Q, 95%Q) "2025-05-14T14:29:38"] true.

Lemma forward_loop_flush_discipline_witness :
  let r := forward_iteration true None charging_node queued_locals in
  0 < LOW_BATTERY_THRESHOLD (battery charging_node)
  /\ last_known_returning_status queued_locals = true
  /\ returning (battery r.1.1.1) = false
  /\ batch queued_locals <> []
  /\ r.1.2 = [(batch queued_locals, anomalies queued_locals)]
  /\ batch r.1.1.2 = [].
Proof.
  intros r.
  assert (Hlow : 0 < LOW_BATTERY_THRESHOLD (battery charging_node))
    by (vm_compute; reflexivity).
  assert (Hlast : last_known_returning_status queued_locals = true)
    by reflexivity.
  assert (Hret : returning (battery r.1.1.1) = false) by reflexivity.
  assert (Hne : batch queued_locals <> []) by discriminate.
  destruct (forward_loop_flush_discipline sample_dumps true None charging_node
              queued_locals (sample_env Delivered)) as [_ H].
  destruct (H Hlow Hlast Hret Hne) as (Hcalls & Hbatch & _).
  split; [exact Hlow|]. split; [exact Hlast|]. split; [exact Hret|].
  split; [exact Hne|]. split; [exact Hcalls | exact Hbatch].
Defined.

(** A node that is returning keeps a batch that is already full: six
    readings are queued, a seventh arrives, and the turn sends nothing. *)
Example returning_keeps_full_batch :
  let self := with_battery (mkBattery 43 3 10 20 true) (@DroneEdge_init Q) in
  let loc := mkLocals (sample_batch ++ sample_batch) [] true in
  let r := forward_iteration true
             (Some (SensorReading.mk "sensor3" 21%Q 50%Q "2025-05-14T14:29:40"))
             self loc in
  gauge (battery r.1.1.1) = (53, true)
  /\ r.1.2 = []
  /\ length (batch r.1.1.2) = 7%nat.
Proof. repeat split; reflexivity. Qed.

(** Turns with a battery tick due and an empty queue. *)
Definition idle_turns (n : nat) : list (@Turn Q) :=
  replicate n (mkTurn true None (sample_env Delivered)).

Lemma charging_after_travel_witness :
  (forall t, t ∈ idle_turns 27 -> tick_due t = true)
  /\ (length (idle_turns 27) <= 37)%nat
  /\ exists self loc,
       _forward_loop sample_dumps (idle_turns 27) DroneEdge_init = inr (self, loc)
       /\ (level (battery self), returning (battery self),
           travel_ticks_remaining self, (should_charge_this_tick self).1)
          = (19, true, 2, false).
Proof.
  assert (Hall : forall t, t ∈ idle_turns 27 -> tick_due t = true).
  { intros t Ht. apply elem_of_replicate in Ht as [-> _]. reflexivity. }
  assert (Hlen : (length (idle_turns 27) <= 37)%nat).
  { unfold idle_turns. rewrite length_replicate. lia. }
  split; [exact Hall|]. split; [exact Hlen|].
  destruct (charging_after_travel sample_dumps [] (idle_turns 27)) as (_ & H & _).
  destruct (H Hall Hlen) as (self & loc & Hrun & Hrow).
  exists self, loc. split; [exact Hrun | exact Hrow].
Defined.

(** * Further properties of the code *)

(** ** src/battery.py: the drain-only battery *)

Module Phase2.

Record Battery := mkBattery {
  level : Z;
  drain_rate : Z
}.

(** [Battery.tick()]; the method returns the new level. *)
Definition tick (b : Battery) : Battery :=
  mkBattery (Z.max 0 (level b - drain_rate b)) (drain_rate b).

Fixpoint ticks (n : nat) (b : Battery) : Battery :=
  match n with
  | O => b
  | S n' => ticks n' (tick b)
  end.

Lemma drain_only_closed_form (n : nat) (b : Battery) :
  0 <= drain_rate b -> 0 <= level b ->
  level (ticks n b) = Z.max 0 (level b - Z.of_nat n * drain_rate b).
Proof.
  revert b. induction n as [|n IH]; intros b Hd Hl.
  - simpl. lia.
  - cbn [ticks]. rewrite IH; simpl; lia.
Qed.

(** X1.  The drain-only battery, started in [0,100] with a drain rate that
    is not negative: after [n] ticks its level is
    [max 0 (start - n * drain_rate)], so it stays in [0,100], never rises,
    and is 0 from the tick on at which [n * drain_rate] reaches the start
    level. *)
Theorem ticks_level (n : nat) (b : Battery) :
  0 <= drain_rate b ->
  0 <= level b <= 100 ->
  level (ticks n b) = Z.max 0 (level b - Z.of_nat n * drain_rate b)
  /\ 0 <= level (ticks n b) <= level b
  /\ (level b <= Z.of_nat n * drain_rate b -> level (ticks n b) = 0).
Proof.
  intros Hd Hl. rewrite drain_only_closed_form by lia.
  split; [reflexivity|]. split; [nia|]. intros Hn. lia.
Qed.

Lemma ticks_level_witness :
  0 <= drain_rate (mkBattery 100 1)
  /\ 0 <= level (mkBattery 100 1) <= 100
  /\ level (ticks 30 (mkBattery 100 1)) = 70
  /\ level (ticks 130 (mkBattery 100 1)) = 0.
Proof.
  assert (Hd : 0 <= drain_rate (mkBattery 100 1)) by (simpl; lia).
  assert (Hl : 0 <= level (mkBattery 100 1) <= 100) by (simpl; lia).
  split; [exact Hd|]. split; [exact Hl|]. split.
  - exact (proj1 (ticks_level 30 (mkBattery 100 1) Hd Hl)).
  - apply (proj2 (proj2 (ticks_level 130 (mkBattery 100 1) Hd Hl))).
    simpl. lia.
Defined.

End Phase2.

(** ** common/battery.py *)



Lemma ticks_rates (cs : list bool) (b : Battery) :
  drain_rate (ticks cs b) = drain_rate b
  /\ recharge_rate (ticks cs b) = recharge_rate b.
Proof.
  unfold ticks. revert b. induction cs as [|c cs IH]; intros b; simpl; [tauto|].
  destruct (IH (tick c b)) as [-> ->]. apply tick_rates.
Qed.

Lemma ticks_snoc (cs : list bool) (c : bool) (b : Battery) :
  ticks (cs ++ [c]) b = tick c (ticks cs b).
Proof. unfold ticks. now rewrite fold_left_app. Qed.

Lemma replicate_snoc {A : Type} (n : nat) (x : A) :
  replicate (S n) x = replicate n x ++ [x].
Proof. induction n as [|n IH]; [reflexivity|]. simpl in *. now rewrite <- IH. Qed.

(** X3.  Ticks compose into a closed form.  With a drain rate that is not
    negative, [n] ticks without charging take a level that is not negative
    to [max 0 (level - n * drain_rate)]; with a recharge rate that is not
    negative, [n] charging ticks take a level of at most 100 to
    [min 100 (level + n * recharge_rate)]. *)
Theorem ticks_closed_form (n : nat) (b : Battery) :
  (0 <= drain_rate b -> 0 <= level b ->
   level (ticks (replicate n false) b)
   = Z.max 0 (level b - Z.of_nat n * drain_rate b))
  /\ (0 <= recharge_rate b -> level b <= 100 ->
      level (ticks (replicate n true) b)
      = Z.min 100 (level b + Z.of_nat n * recharge_rate b)).
Proof.
  split; intros Hr Hl.
  - induction n as [|n IH]; [simpl; lia|].
    rewrite replicate_snoc, ticks_snoc, tick_level, IH.
    destruct (ticks_rates (replicate n false) b) as [-> _].
    rewrite Nat2Z.inj_succ. nia.
  - induction n as [|n IH]; [simpl; lia|].
    rewrite replicate_snoc, ticks_snoc, tick_level, IH.
    destruct (ticks_rates (replicate n true) b) as [_ ->].
    rewrite Nat2Z.inj_succ. nia.
Qed.

Lemma ticks_closed_form_witness :
  0 <= drain_rate (Battery_init 100 3 10 20)
  /\ 0 <= level (Battery_init 100 3 10 20)
  /\ level (ticks (replicate 27 false) (Battery_init 100 3 10 20)) = 19.
Proof.
  assert (Hd : 0 <= drain_rate (Battery_init 100 3 10 20)) by (simpl; lia).
  assert (Hl : 0 <= level (Battery_init 100 3 10 20)) by (simpl; lia).
  split; [exact Hd|]. split; [exact Hl|].
  exact (proj1 (ticks_closed_form 27 (Battery_init 100 3 10 20)) Hd Hl).
Defined.

(** ** drone_edge/drone.py: runs of the forwarding loop *)

Section LoopRuns.
Context {num : Type} {PN : PyNum num}.
Variable json_dumps : DroneReport.t num -> string.

(** The anomaly list holds the events of the anomalous readings of the
    batch, in the order of the batch. *)
Definition anomalies_of (bt : list (SensorReading.t num)) : list (AnomalyEvent num) :=
  anomaly_event <$> filter (fun r => is_anomaly r = true) bt.

Definition tidy (loc : @Locals num) : Prop :=
  anomalies loc = anomalies_of (batch loc).

Definition tidy_call (call : @Flush num) : Prop :=
  call.2 = anomalies_of call.1.

Lemma new_anomalies_of (taken : option (SensorReading.t num)) :
  new_anomalies taken = anomalies_of (option_list taken).
Proof.
  unfold new_anomalies, anomalies_of. destruct taken as [rd|]; [|reflexivity].
  simpl. rewrite filter_cons, filter_nil.
  destruct (is_anomaly rd) eqn:Ha; case_decide; try congruence; reflexivity.
Qed.

Lemma anomalies_of_app (l1 l2 : list (SensorReading.t num)) :
  anomalies_of (l1 ++ l2) = anomalies_of l1 ++ anomalies_of l2.
Proof. unfold anomalies_of. now rewrite filter_app, fmap_app. Qed.

Lemma take_reading_tidy (taken : option (SensorReading.t num)) (loc : Locals) :
  tidy loc -> tidy (take_reading taken loc).
Proof.
  unfold tidy, take_reading. simpl. intros ->.
  now rewrite anomalies_of_app, new_anomalies_of.
Qed.

(** What [flush_condition] hands over and what it keeps. *)
Lemma flush_condition_cases (self : DroneEdge num) (loc : Locals) :
  let r := flush_condition self loc in
  (r.2 = [] /\ r.1 = loc
   /\ ((FORWARD_BATCH <=? len (batch loc)) = false
       \/ returning (battery self) = true))
  \/ (r.2 = [(batch loc, anomalies loc)]
      /\ batch r.1 = [] /\ anomalies r.1 = []
      /\ FORWARD_BATCH <= len (batch loc)
      /\ returning (battery self) = false).
Proof.
  unfold flush_condition.
  destruct (Z.leb_spec FORWARD_BATCH (len (batch loc)));
    destruct (returning (battery self)); simpl; auto 10.
Qed.

(** One turn: the calls it makes, and where the readings are afterwards. *)
Lemma forward_iteration_calls (td : bool) (inc : option (SensorReading.t num))
    (self : DroneEdge num) (loc : Locals) :
  let r := forward_iteration td inc self loc in
  let taken := match r.2 with Break => None | NextIteration => inc end in
  (length r.1.2 <= 1)%nat
  /\ concat (fst <$> r.1.2) ++ batch r.1.1.2 = batch loc ++ option_list taken
  /\ (r.1.2 <> [] -> returning (battery r.1.1.1) = false)
  /\ Forall (fun call => call.1 <> []) r.1.2
  /\ (tidy loc -> tidy r.1.1.2 /\ Forall tidy_call r.1.2).
Proof.
  intros r taken.
  pose proof (forward_iteration_next td inc self loc) as Hnext.
  pose proof (forward_iteration_break td inc self loc) as Hbreak.
  fold r in Hnext, Hbreak. cbv zeta in Hnext, Hbreak.
  set (self1 := if td then (battery_tick self).1 else self) in *.
  pose proof (status_change_frame self1 loc) as (Hbat & _).
  pose proof (status_change_locals self1 loc) as (_ & Hstay & Hnil & Hflush).
  cbv zeta in Hbat, Hstay, Hnil, Hflush.
  subst taken. destruct (r.2) eqn:Hctl.
  - destruct (Hnext eq_refl) as (Hs & Hl & Hc). rewrite Hs, Hl, Hc, Hbat.
    set (sc := status_change self1 loc) in *.
    pose proof (flush_condition_cases sc.1.1 (take_reading inc sc.1.2)) as Hfc.
    cbv zeta in Hfc. rewrite Hbat in Hfc.
    set (fc := flush_condition sc.1.1 (take_reading inc sc.1.2)) in *.
    assert (Hsc : (sc.2 = [] /\ batch sc.1.2 = batch loc
                   /\ anomalies sc.1.2 = anomalies loc)
                  \/ (sc.2 = [(batch loc, anomalies loc)] /\ batch loc <> []
                      /\ batch sc.1.2 = [] /\ anomalies sc.1.2 = []
                      /\ returning (battery self1) = false)).
    { destruct (last_known_returning_status loc && negb (returning (battery self1)))
        eqn:Hact.
      - destruct (batch loc) as [|x xs] eqn:Hb.
        + left. destruct (Hnil eq_refl eq_refl) as (? & ? & ?). auto.
        + right. destruct (Hflush eq_refl) as (? & ? & ?); [discriminate|].
          apply andb_prop in Hact as [_ Hact]. apply negb_true_iff in Hact.
          repeat split; auto; discriminate.
      - left. apply (Hstay eq_refl). }
    destruct Hsc as [(Hc1 & Hb1 & Ha1) | (Hc1 & Hne & Hb1 & Ha1 & Hr1)];
      destruct Hfc as [(Hc2 & Hl2 & Hwhy) | (Hc2 & Hb2 & Ha2 & Hbig & Hr2)];
      rewrite Hc1, Hc2; cbn [app length fmap list_fmap concat fst].
    + rewrite Hl2. unfold take_reading at 1. cbn [batch]. rewrite Hb1.
      split; [lia|]. split; [reflexivity|]. split; [congruence|].
      split; [constructor|].
      intros Ht. split; [|constructor].
      apply take_reading_tidy. unfold tidy. now rewrite Hb1, Ha1.
    + rewrite Hb2, !app_nil_r. unfold take_reading. cbn [batch anomalies].
      rewrite Hb1, Ha1. split; [lia|]. split; [reflexivity|].
      split; [intros _; exact Hr2|].
      split.
      { constructor; [|constructor]. cbn [fst]. intros Hemp.
        unfold take_reading in Hbig. cbn [batch] in Hbig.
        rewrite Hb1, Hemp in Hbig. unfold FORWARD_BATCH, len in Hbig.
        simpl in Hbig. lia. }
      intros Ht. split; [unfold tidy; now rewrite Hb2, Ha2|].
      constructor; [|constructor]. unfold tidy_call. cbn [fst snd].
      rewrite Ht, anomalies_of_app, new_anomalies_of. reflexivity.
    + rewrite Hl2. unfold take_reading at 1. cbn [batch]. rewrite Hb1, app_nil_r.
      split; [lia|]. split; [reflexivity|]. split; [intros _; exact Hr1|].
      split; [constructor; [exact Hne | constructor]|].
      intros Ht. split; [|constructor; [exact Ht | constructor]].
      apply take_reading_tidy. unfold tidy. now rewrite Hb1, Ha1.
    + exfalso. unfold take_reading in Hbig. cbn [batch] in Hbig.
      rewrite Hb1 in Hbig. unfold FORWARD_BATCH, len in Hbig.
      destruct inc; simpl in Hbig; lia.
  - destruct (Hbreak eq_refl) as (Hs & Hl & Hc & _). rewrite Hl, Hc.
    cbn [length fmap list_fmap concat option_list app].
    rewrite app_nil_r. split; [lia|]. split; [reflexivity|].
    split; [congruence|]. split; [constructor|].
    intros Ht. split; [exact Ht | constructor].
Qed.

(** The pure part of a turn leaves the queues, the store and the log
    alone. *)
Lemma forward_iteration_frame (td : bool) (inc : option (SensorReading.t num))
    (self : DroneEdge num) (loc : Locals) :
  let self' := (forward_iteration td inc self loc).1.1.1 in
  gui_q self' = gui_q self /\ unsent_dir self' = unsent_dir self
  /\ collector self' = collector self /\ log self' = log self.
Proof.
  unfold forward_iteration, battery_tick, should_charge_this_tick, stop,
    status_change, queue_reading, flush_condition, with_stop,
    with_charging_log, with_travel, with_battery.
  destruct self as [b trv clog stp gq ud col lg];
  destruct loc as [bt an lk]; simpl.
  destruct td; simpl;
    repeat (simpl;
            match goal with
            | |- context [if ?x then _ else _] => destruct x eqn:?
            | |- context [match ?x with [] => _ | _ :: _ => _ end] => destruct x
            | |- context [match ?x with Some _ => _ | None => _ end] => destruct x
            end);
    repeat split; reflexivity.
Qed.

(** The report [_send_report] builds for a call made on [self]. *)
Definition report_of (env : SendEnv) (self : DroneEdge num) (call : @Flush num)
  : DroneReport.t num :=
  make_rpt env (map as_obj call.1) call.2 self.

(** A report that stems from a call: it carries the anomalies of the call,
    the means over the whole batch of the call, the number of distinct
    sensors of the batch, and the status [active]. *)
Definition report_for (call : @Flush num) (rpt : DroneReport.t num) : Prop :=
  DroneReport.anomalies rpt = call.2
  /\ DroneReport.status rpt = active
  /\ DroneReport.avg_temperature rpt
     = arithmetic_mean (SensorReading.temperature <$> call.1)
  /\ DroneReport.avg_humidity rpt
     = arithmetic_mean (SensorReading.humidity <$> call.1)
  /\ DroneReport.sensor_count rpt
     = distinct (SensorReading.sensor_id <$> call.1).

Lemma make_rpt_battery (env : SendEnv) (valid : list (@ReadingObj num))
    (an : list (AnomalyEvent num)) (self1 self2 : DroneEdge num) :
  battery self1 = battery self2 ->
  make_rpt env valid an self1 = make_rpt env valid an self2.
Proof. intros H. unfold make_rpt. now rewrite H. Qed.

Lemma report_of_report_for (env : SendEnv) (self : DroneEdge num)
    (call : @Flush num) :
  returning (battery self) = false -> report_for call (report_of env self call).
Proof.
  intros Hr. destruct call as [bt an].
  pose proof (make_rpt_fields env (map as_obj bt) an self) as (Ht & Hh & Hs & Ha).
  cbv zeta in Ht, Hh, Hs, Ha. rewrite filter_as_obj in Ht, Hh, Hs, Ha.
  rewrite both_fields_as_obj in Ht, Hh, Hs.
  rewrite <- !list_fmap_compose in Ht, Hh.
  unfold report_for, report_of. cbn [fst snd].
  split; [exact Ha|]. split; [simpl; now rewrite Hr|].
  split; [exact Ht|]. split; [exact Hh|].
  rewrite Hs. f_equal. clear. induction bt as [|r bt IH]; [reflexivity|].
  simpl. f_equal. exact IH.
Qed.

(** Carrying out calls with non-empty batches puts one report per call on
    the GUI queue, in the order of the calls. *)
Lemma deliver_reports (env : SendEnv) (calls : list (@Flush num))
    (self : DroneEdge num) :
  Forall (fun call => call.1 <> []) calls ->
  exists self',
    deliver json_dumps env calls self = inr self'
    /\ gui_q self' = gui_q self ++ (report_of env self <$> calls)
    /\ battery self' = battery self
    /\ travel_ticks_remaining self' = travel_ticks_remaining self
    /\ _stop self' = _stop self.
Proof.
  revert self. induction calls as [|[bt an] rest IH]; intros self Hne.
  - exists self. simpl. rewrite app_nil_r. repeat split; reflexivity.
  - apply Forall_cons in Hne as [Hbt Hrest]. cbn [fst] in Hbt. cbn [deliver].
    assert (Hv : filter (fun r => has_T_H r = true) (map as_obj bt) <> []).
    { rewrite filter_as_obj. destruct bt; [now destruct Hbt | discriminate]. }
    rewrite (send_report_outcome json_dumps env (map as_obj bt) an self Hv).
    rewrite filter_as_obj.
    set (rpt := make_rpt env (map as_obj bt) an self).
    set (self1 := match connection env with
                  | Delivered => _ | Unreachable => _ | Broken => _ end).
    assert (Hq : gui_q self1 = gui_q self ++ [rpt])
      by (subst self1; destruct (connection env); reflexivity).
    assert (Hb : battery self1 = battery self)
      by (subst self1; destruct (connection env); reflexivity).
    assert (Ht : travel_ticks_remaining self1 = travel_ticks_remaining self)
      by (subst self1; destruct (connection env); reflexivity).
    assert (Hs : _stop self1 = _stop self)
      by (subst self1; destruct (connection env); reflexivity).
    destruct (IH self1 Hrest) as (self' & -> & Hq' & Hb' & Ht' & Hs').
    exists self'. split; [reflexivity|].
    split; [|repeat split; congruence].
    rewrite Hq', Hq, <- app_assoc. cbn [fmap list_fmap app]. f_equal. f_equal.
    apply list_fmap_ext. intros _ call _. unfold report_of.
    now apply make_rpt_battery.
Qed.

(** [forward_turns], keeping a journal of the [_send_report] calls made
    and of the readings taken from the queue. *)
Fixpoint forward_journal (turns : list (@Turn num)) (self : DroneEdge num)
    (loc : @Locals num)
  : exn + (DroneEdge num * @Locals num
           * (list (@Flush num) * list (SensorReading.t num))) :=
  match turns with
  | [] => inr (self, loc, ([], []))
  | t :: rest =>
    if _stop self then inr (self, loc, ([], []))
    else
      let r := forward_iteration (tick_due t) (incoming t) self loc in
      match deliver json_dumps (send_env t) r.1.2 r.1.1.1 with
      | inl e => inl e
      | inr self2 =>
        match r.2 with
        | Break => inr (self2, r.1.1.2, (r.1.2, []))
        | NextIteration =>
          match forward_journal rest self2 r.1.1.2 with
          | inl e => inl e
          | inr (self', loc', (calls', taken')) =>
            inr (self', loc',
                 (r.1.2 ++ calls', option_list (incoming t) ++ taken'))
          end
        end
      end
  end.

(** What a run of the loop does with the readings it is handed. *)
Lemma forward_journal_facts (turns : list (@Turn num)) (self : DroneEdge num)
    (loc : @Locals num) :
  exists self' loc' calls taken reports,
    forward_journal turns self loc = inr (self', loc', (calls, taken))
    /\ forward_turns json_dumps turns self loc = inr (self', loc')
    /\ taken `prefix_of` omap incoming turns
    /\ concat (fst <$> calls) ++ batch loc' = batch loc ++ taken
    /\ Forall (fun call => call.1 <> []) calls
    /\ (tidy loc -> tidy loc' /\ Forall tidy_call calls)
    /\ gui_q self' = gui_q self ++ reports
    /\ Forall2 report_for calls reports.
Proof.
  revert self loc. induction turns as [|t rest IH]; intros self loc;
    cbn [forward_journal forward_turns].
  - exists self, loc, [], [], [].
    split; [reflexivity|]. split; [reflexivity|]. split; [apply prefix_nil|].
    split; [simpl; now rewrite app_nil_r|]. split; [constructor|].
    split; [intros Ht; split; [exact Ht | constructor]|].
    split; [now rewrite app_nil_r | constructor].
  - destruct (_stop self).
    { exists self, loc, [], [], [].
      split; [reflexivity|]. split; [reflexivity|]. split; [apply prefix_nil|].
      split; [simpl; now rewrite app_nil_r|]. split; [constructor|].
      split; [intros Ht; split; [exact Ht | constructor]|].
      split; [now rewrite app_nil_r | constructor]. }
    pose proof (forward_iteration_calls (tick_due t) (incoming t) self loc)
      as (_ & Hcons & Hact & Hne & Htidy).
    pose proof (forward_iteration_frame (tick_due t) (incoming t) self loc)
      as (Hgq & _).
    cbv zeta in Hcons, Hact, Hne, Htidy, Hgq |- *.
    destruct (forward_iteration (tick_due t) (incoming t) self loc)
      as [[[self1 loc1] calls1] ctl]. cbn [fst snd] in *.
    destruct (deliver_reports (send_env t) calls1 self1 Hne)
      as (self2 & -> & Hq2 & Hb2 & _).
    assert (Hrep : Forall2 report_for calls1 (report_of (send_env t) self1 <$> calls1)).
    { destruct calls1 as [|c cs]; [constructor|].
      specialize (Hact ltac:(discriminate)).
      apply Forall2_fmap_r, Forall_Forall2_diag, Forall_forall.
      intros call _. now apply report_of_report_for. }
    destruct ctl.
    + destruct (IH self2 loc1)
        as (self' & loc' & calls & taken & reports & -> & -> & Hpre & Hc & Hn & Ht & Hq & Hr).
      exists self', loc', (calls1 ++ calls), (option_list (incoming t) ++ taken),
        ((report_of (send_env t) self1 <$> calls1) ++ reports).
      split; [reflexivity|]. split; [reflexivity|].
      split.
      { cbn [omap list_omap]. destruct (incoming t); simpl;
          [now apply prefix_cons | exact Hpre]. }
      split.
      { rewrite fmap_app, concat_app, <- app_assoc, Hc, !app_assoc.
        now rewrite Hcons. }
      split; [now apply Forall_app|].
      split.
      { intros Htl. destruct (Htidy Htl) as [Ht1 Hc1].
        destruct (Ht Ht1) as [Ht2 Hc2]. split; [exact Ht2 | now apply Forall_app]. }
      split; [now rewrite Hq, Hq2, Hgq, app_assoc|].
      now apply Forall2_app.
    + exists self2, loc1, calls1, [], (report_of (send_env t) self1 <$> calls1).
      split; [reflexivity|]. split; [reflexivity|].
      split; [apply prefix_nil|]. split; [exact Hcons|]. split; [exact Hne|].
      split; [exact Htidy|]. split; [now rewrite Hq2, Hgq | exact Hrep].
Qed.

(** X4.  A turn of the forwarding loop calls [_send_report] at most once,
    only with a batch that is not empty, and only when the turn ends with
    the node active. *)
Theorem turn_makes_at_most_one_call (td : bool)
    (inc : option (SensorReading.t num)) (self : DroneEdge num) (loc : Locals) :
  let r := forward_iteration td inc self loc in
  (length r.1.2 <= 1)%nat
  /\ Forall (fun call => call.1 <> []) r.1.2
  /\ (r.1.2 <> [] -> returning (battery r.1.1.1) = false).
Proof.
  pose proof (forward_iteration_calls td inc self loc) as (H1 & _ & H3 & H4 & _).
  cbv zeta in *. auto.
Qed.


(** X6.  The anomalies travel with their readings.  Over any run of
    [_forward_loop], every call of [_send_report] is given exactly the
    anomaly events of the anomalous readings of the batch it is given, in
    the order of the batch, and the anomaly list the loop still holds is
    that of the batch it still holds. *)
Theorem forward_loop_anomalies_follow_batch (turns : list (@Turn num))
    (self : DroneEdge num) :
  exists self' loc' calls taken,
    forward_journal turns self (Locals_init self) = inr (self', loc', (calls, taken))
    /\ _forward_loop json_dumps turns self = inr (self', loc')
    /\ Forall (fun call => call.2 = anomalies_of call.1) calls
    /\ anomalies loc' = anomalies_of (batch loc').
Proof.
  destruct (forward_journal_facts turns self (Locals_init self))
    as (self' & loc' & calls & taken & reports & H1 & H2 & _ & _ & _ & H6 & _).
  exists self', loc', calls, taken.
  destruct H6 as [Ht Hc]; [reflexivity|]. auto.
Qed.

(** X7.  One report per flushed batch.  Over any run of turns from any
    state, the GUI queue grows by exactly one report for each call of
    [_send_report], in the order of the calls; each of these reports
    carries the anomalies of its call, the means of temperature and
    humidity over the whole batch of its call, the number of distinct
    sensor ids of that batch, and the status [active]: the loop never
    emits a report with status [returning]. *)
Theorem forward_loop_reports (turns : list (@Turn num))
    (self : DroneEdge num) (loc : @Locals num) :
  exists self' loc' calls taken reports,
    forward_journal turns self loc = inr (self', loc', (calls, taken))
    /\ forward_turns json_dumps turns self loc = inr (self', loc')
    /\ gui_q self' = gui_q self ++ reports
    /\ Forall2 report_for calls reports
    /\ Forall (fun rpt => DroneReport.status rpt = active) reports.
Proof.
  destruct (forward_journal_facts turns self loc)
    as (self' & loc' & calls & taken & reports & H1 & H2 & _ & _ & _ & _ & H7 & H8).
  exists self', loc', calls, taken, reports.
  split; [exact H1|]. split; [exact H2|]. split; [exact H7|]. split; [exact H8|].
  clear -H8. induction H8 as [|c r cs rs Hcr _ IH]; constructor; [|exact IH].
  apply Hcr.
Qed.

(** *** A node left to itself *)






(** *** Running flat *)

Lemma manual_drain_flat (amount : Z) (self : DroneEdge num) :
  returning (battery self) = false ->
  0 < LOW_BATTERY_THRESHOLD (battery self) ->
  0 <= travel_ticks_remaining self ->
  0 < amount ->
  level (battery self) <= amount ->
  let self1 := manual_drain_battery amount self in
  level (battery self1) = 0 /\ returning (battery self1) = true
  /\ drain_rate (battery self1) = drain_rate (battery self)
  /\ 0 < travel_ticks_remaining self1
  /\ _stop self1 = _stop self /\ gui_q self1 = gui_q self
  /\ collector self1 = collector self /\ unsent_dir self1 = unsent_dir self.
Proof.
  unfold manual_drain_battery, with_charging_log, with_travel, with_battery,
    set_level, set_returning.
  destruct self as [[lvl dr rr low ret] trv clog stp gq ud col lg]; simpl.
  intros -> Hlow Htrv Ha Hlvl.
  destruct (Z.leb_spec amount 0); [lia|].
  replace (0 `max` (lvl - amount)) with 0 by lia. simpl.
  destruct (Z.ltb_spec 0 low); [|lia]. simpl.
  destruct (Z.eqb_spec trv 0); simpl; repeat split; try reflexivity; lia.
Qed.

Lemma flat_turn (inc : option (SensorReading.t num)) (self : DroneEdge num)
    (loc : @Locals num) :
  _stop self = false ->
  returning (battery self) = true ->
  level (battery self) = 0 ->
  0 <= drain_rate (battery self) ->
  0 < travel_ticks_remaining self ->
  let r := forward_iteration true inc self loc in
  r.2 = Break /\ r.1.2 = [] /\ r.1.1.2 = loc
  /\ _stop r.1.1.1 = true /\ level (battery r.1.1.1) = 0
  /\ returning (battery r.1.1.1) = true
  /\ gui_q r.1.1.1 = gui_q self /\ collector r.1.1.1 = collector self
  /\ unsent_dir r.1.1.1 = unsent_dir self.
Proof.
  destruct self as [[lvl dr rr low ret] trv clog stp gq ud col lg].
  cbn [_stop battery returning level drain_rate travel_ticks_remaining
       gui_q collector unsent_dir].
  intros -> -> -> Hdr Htrv.
  unfold forward_iteration, battery_tick, should_charge_this_tick.
  cbn [battery returning travel_ticks_remaining].
  destruct (Z.ltb_spec 0 trv); [|lia].
  unfold tick, set_level, set_returning, with_travel, with_battery, stop,
    with_stop, CRITICAL_BATTERY_THRESHOLD.
  cbn [battery level drain_rate recharge_rate LOW_BATTERY_THRESHOLD returning
       travel_ticks_remaining charging_started_log_sent _stop gui_q unsent_dir
       collector log].
  replace (0 `max` (0 - dr)) with 0 by lia.
  cbn. repeat split; reflexivity.
Qed.

Lemma drained_turn (amount : Z) (inc : option (SensorReading.t num))
    (self : DroneEdge num) (loc : @Locals num) :
  _stop self = false ->
  returning (battery self) = false ->
  0 < LOW_BATTERY_THRESHOLD (battery self) ->
  0 <= drain_rate (battery self) ->
  0 <= travel_ticks_remaining self ->
  0 < amount ->
  level (battery self) <= amount ->
  let r := forward_iteration true inc (manual_drain_battery amount self) loc in
  r.2 = Break /\ r.1.2 = [] /\ r.1.1.2 = loc
  /\ _stop r.1.1.1 = true /\ level (battery r.1.1.1) = 0
  /\ returning (battery r.1.1.1) = true
  /\ gui_q r.1.1.1 = gui_q self /\ collector r.1.1.1 = collector self
  /\ unsent_dir r.1.1.1 = unsent_dir self.
Proof.
  intros Hstop Hret Hlow Hdr Htrv Ha Hlvl.
  destruct (manual_drain_flat amount self Hret Hlow Htrv Ha Hlvl)
    as (Hl1 & Hr1 & Hd1 & Ht1 & Hs1 & Hg1 & Hc1 & Hu1).
  rewrite <- Hd1 in Hdr. rewrite <- Hs1 in Hstop.
  rewrite <- Hg1, <- Hc1, <- Hu1.
  now apply flat_turn.
Qed.

(** X9.  Draining an active node to nothing shuts it down at the next
    tick.  If a manual drain of at least the current level is applied to a
    node that is not returning, the next turn with a tick due finds the
    level at 0, stops the node and ends the loop: no later turn runs, no
    reading is taken, nothing is sent or stored, and the batch held at
    that moment is never reported. *)
Theorem drained_node_shuts_down (amount : Z) (t : @Turn num)
    (rest : list (@Turn num)) (self : DroneEdge num) (loc : @Locals num) :
  _stop self = false ->
  returning (battery self) = false ->
  0 < LOW_BATTERY_THRESHOLD (battery self) ->
  0 <= drain_rate (battery self) ->
  0 <= travel_ticks_remaining self ->
  0 < amount ->
  level (battery self) <= amount ->
  tick_due t = true ->
  exists self',
    forward_turns json_dumps (t :: rest) (manual_drain_battery amount self) loc
    = inr (self', loc)
    /\ _stop self' = true
    /\ level (battery self') = 0
    /\ gui_q self' = gui_q self
    /\ collector self' = collector self
    /\ unsent_dir self' = unsent_dir self.
Proof.
  intros Hstop Hret Hlow Hdr Htrv Ha Hlvl Htd.
  pose proof (drained_turn amount (incoming t) self loc
                Hstop Hret Hlow Hdr Htrv Ha Hlvl) as H.
  cbv zeta in H. cbn [forward_turns]. rewrite Htd.
  assert (Hs1 : _stop (manual_drain_battery amount self) = false).
  { clear H. unfold manual_drain_battery, with_charging_log, with_travel,
      with_battery. destruct self as [b trv clog stp gq ud col lg]; simpl in *.
    repeat match goal with
           | |- context [if ?x then _ else _] => destruct x
           end; exact Hstop. }
  rewrite Hs1.
  destruct (forward_iteration true (incoming t)
              (manual_drain_battery amount self) loc)
    as [[[self1 loc1] calls] ctl]. cbn [fst snd] in H.
  destruct H as (-> & -> & -> & Hs & Hl & _ & Hg & Hc & Hu).
  exists self1. cbn [deliver]. repeat split; assumption.
Qed.

End LoopRuns.

Lemma drained_node_shuts_down_witness :
  let self := @DroneEdge_init Q in
  let t := mkTurn true (Some (SensorReading.mk "sensor3" 21%Q 50%Q "2025-05-14T14:29:40"))
             (sample_env Delivered) in
  (_stop self = false /\ returning (battery self) = false
   /\ 0 < LOW_BATTERY_THRESHOLD (battery self) /\ 0 <= drain_rate (battery self)
   /\ 0 <= travel_ticks_remaining self /\ 0 < 100
   /\ level (battery self) <= 100 /\ tick_due t = true)
  /\ exists self',
       forward_turns sample_dumps [t; t] (manual_drain_battery 100 self)
         queued_locals = inr (self', queued_locals)
       /\ _stop self' = true
       /\ gui_q self' = [].
Proof.
  intros self t.
  assert (H1 : _stop self = false) by reflexivity.
  assert (H2 : returning (battery self) = false) by reflexivity.
  assert (H3 : 0 < LOW_BATTERY_THRESHOLD (battery self)) by (vm_compute; reflexivity).
  assert (H4 : 0 <= drain_rate (battery self)) by (vm_compute; discriminate).
  assert (H5 : 0 <= travel_ticks_remaining self) by (vm_compute; discriminate).
  assert (H6 : 0 < 100) by (vm_compute; reflexivity).
  assert (H7 : level (battery self) <= 100) by (vm_compute; discriminate).
  assert (H8 : tick_due t = true) by reflexivity.
  split; [repeat split; assumption|].
  destruct (drained_node_shuts_down sample_dumps 100 t [t] self queued_locals
              H1 H2 H3 H4 H5 H6 H7 H8) as (self' & Hrun & Hs & _ & Hg & _).
  exists self'. split; [exact Hrun|]. split; [exact Hs | exact Hg].
Defined.

(** ** drone_edge/drone.py: delivery and retry over time *)

Lemma string_length_app (s t : string) :
  String.length (s +:+ t) = (String.length s + String.length t)%nat.
Proof. induction s as [|c s IH]; simpl; [reflexivity|]. now rewrite IH. Qed.

Lemma substring_skip_app (s t : string) (m : nat) :
  String.substring (String.length s) m (s +:+ t) = String.substring 0 m t.
Proof. induction s as [|c s IH]; simpl; [reflexivity | exact IH]. Qed.

(** Every name [_send_report] saves a report under is one the retry loop
    lists. *)
Lemma is_json_name_app (s : string) : is_json_name (s +:+ ".json") = true.
Proof.
  unfold is_json_name. rewrite string_length_app.
  change (String.length ".json") with 5%nat.
  replace (String.length s + 5 - 5)%nat with (String.length s) by lia.
  rewrite substring_skip_app.
  change (String.substring 0 5 ".json") with ".json".
  rewrite String.eqb_refl, andb_true_r. apply Nat.leb_le. lia.
Qed.

Section StoreRuns.
Context {num : Type} {PN : PyNum num}.
Variable json_dumps : DroneReport.t num -> string.

(** X10.  An error during delivery that is not an [OSError] loses the
    report: [_send_report] still returns normally and the report has been
    put on the GUI queue, but it reaches neither the collector nor the
    unsent store, so no retry will ever send it. *)
Theorem send_report_drops_on_other_error (env : SendEnv)
    (readings : list (@ReadingObj num)) (anomalies_list : list (AnomalyEvent num))
    (self : DroneEdge num) :
  filter (fun r => has_T_H r = true) readings <> [] ->
  connection env = Broken ->
  exists rpt self',
    _send_report json_dumps env readings anomalies_list self = inr self'
    /\ gui_q self' = gui_q self ++ [rpt]
    /\ collector self' = collector self
    /\ unsent_dir self' = unsent_dir self
    /\ log self' = log self ++ [LogSendUnexpected].
Proof.
  intros Hv Hc. eexists. eexists.
  split; [apply send_report_outcome; exact Hv|].
  rewrite Hc. repeat split; reflexivity.
Qed.

(** What a step of the retry machinery may do to a node: records only
    leave the store, every record that left was handed to the collector
    (the number of records plus the number of frames received stays the
    same), and every frame handed over was the content of a record. *)
Definition retried (self self' : DroneEdge num) : Prop :=
  unsent_dir self' ⊆ unsent_dir self
  /\ (length (collector self') + size (unsent_dir self')
      = length (collector self) + size (unsent_dir self))%nat
  /\ (exists new, collector self' = collector self ++ new
        /\ Forall (fun x => exists name, unsent_dir self !! name = Some x) new)
  /\ _stop self' = _stop self
  /\ battery self' = battery self
  /\ gui_q self' = gui_q self.

Lemma retried_refl (self : DroneEdge num) : retried self self.
Proof.
  unfold retried. split; [reflexivity|]. split; [reflexivity|].
  split; [exists []; split; [now rewrite app_nil_r | constructor]|].
  repeat split; reflexivity.
Qed.

Lemma retried_logging (e : LogEvent) (self self' : DroneEdge num) :
  retried self self' -> retried self (logging e self').
Proof. intros H. exact H. Qed.

Lemma retried_trans (s1 s2 s3 : DroneEdge num) :
  retried s1 s2 -> retried s2 s3 -> retried s1 s3.
Proof.
  intros (Hs1 & Hn1 & (new1 & Hc1 & Hf1) & Hst1 & Hb1 & Hg1)
         (Hs2 & Hn2 & (new2 & Hc2 & Hf2) & Hst2 & Hb2 & Hg2).
  unfold retried. split; [now transitivity (unsent_dir s2)|].
  split; [lia|]. split; [|repeat split; congruence].
  exists (new1 ++ new2). split; [now rewrite Hc2, Hc1, app_assoc|].
  apply Forall_app. split; [exact Hf1|].
  eapply Forall_impl; [exact Hf2|]. intros x [name Hx].
  exists name. eapply lookup_weaken; eauto.
Qed.

Lemma resend_retried (c : Connection) (f : string) (self : DroneEdge num) :
  exists self', resend c f self = inr self' /\ retried self self'.
Proof.
  unfold resend, read_bytes. cbn [unsent_dir logging].
  destruct (unsent_dir self !! f) as [content|] eqn:Hf; cbn [try_except].
  - destruct c; cbn [sendall try_except].
    + unfold unlink. cbn [unsent_dir logging collector_recv]. rewrite Hf.
      eexists. split; [reflexivity|]. unfold retried.
      simpl.
      split; [apply delete_subseteq|]. split.
      { rewrite length_app, map_size_delete, Hf. simpl.
        assert (size (unsent_dir self) <> 0%nat).
        { intros H0. apply map_size_empty_inv in H0. rewrite H0 in Hf.
          now rewrite lookup_empty in Hf. }
        lia. }
      split; [|repeat split; reflexivity].
      exists [content]. split; [reflexivity|]. constructor; [eauto | constructor].
    + eexists. split; [reflexivity|]. do 2 apply retried_logging. apply retried_refl.
    + eexists. split; [reflexivity|]. do 2 apply retried_logging. apply retried_refl.
  - eexists. split; [reflexivity|]. do 2 apply retried_logging. apply retried_refl.
Qed.

Lemma resend_all_retried (net : string -> Connection) (files : list string)
    (self : DroneEdge num) :
  exists self', resend_all net files self = inr self' /\ retried self self'.
Proof.
  revert self. induction files as [|f rest IH]; intros self; cbn [resend_all].
  - exists self. split; [reflexivity | apply retried_refl].
  - destruct (_stop self); [exists self; split; [reflexivity | apply retried_refl]|].
    destruct (resend_retried (net f) f self) as (self1 & -> & H1).
    destruct (IH self1) as (self' & -> & H2).
    exists self'. split; [reflexivity | now apply (retried_trans self self1)].
Qed.

Lemma retry_cycle_retried (net : string -> Connection) (self : DroneEdge num) :
  exists self', retry_cycle net self = inr self' /\ retried self self'.
Proof.
  unfold retry_cycle. case_decide.
  - exists self. split; [reflexivity | apply retried_refl].
  - apply resend_all_retried.
Qed.

(** X11.  The retry loop neither loses nor invents a report.  Over any
    number of wake-ups and whatever the network does, the loop returns
    normally; records only leave the unsent store, none is added or
    changed; the number of records still stored plus the number of frames
    the collector has received stays the same, so a record leaves the
    store exactly when it is delivered; and every frame delivered is the
    content of a record that was in the store when the loop started. *)
Theorem retry_loop_conserves_records (nets : list (string -> Connection))
    (self : DroneEdge num) :
  exists self',
    _retry_unsent_reports_loop nets self = inr self'
    /\ unsent_dir self' ⊆ unsent_dir self
    /\ (length (collector self') + size (unsent_dir self')
        = length (collector self) + size (unsent_dir self))%nat
    /\ exists new,
         collector self' = collector self ++ new
         /\ Forall (fun x => exists name, unsent_dir self !! name = Some x) new.
Proof.
  assert (H : exists self', _retry_unsent_reports_loop nets self = inr self'
                            /\ retried self self').
  { revert self. induction nets as [|net rest IH]; intros self;
      cbn [_retry_unsent_reports_loop].
    - exists self. split; [reflexivity | apply retried_refl].
    - destruct (_stop self); [exists self; split; [reflexivity | apply retried_refl]|].
      destruct (retry_cycle_retried net self) as (self1 & -> & H1).
      destruct (IH self1) as (self' & -> & H2).
      exists self'. split; [reflexivity | now apply (retried_trans self self1)]. }
  destruct H as (self' & Hrun & Hsub & Hcount & Hnew & _).
  exists self'. auto.
Qed.

Lemma delivered_now_none (net : string -> Connection) (d : gmap string string)
    (files : list string) :
  (forall k, k ∈ files -> net k <> Delivered) ->
  delivered_now net d files = [].
Proof.
  unfold delivered_now. induction files as [|k l IH]; intros Hk; [reflexivity|].
  cbn [omap list_omap].
  assert (Hnk : net k <> Delivered) by (apply Hk; left).
  assert (IH' : forall k', k' ∈ l -> net k' <> Delivered)
    by (intros k' Hk'; apply Hk; now right).
  specialize (IH IH').
  destruct (net k); [contradiction| |]; exact IH.
Qed.

Lemma delivered_now_single (net : string -> Connection) (d : gmap string string)
    (files : list string) (name content : string) :
  NoDup files -> name ∈ files ->
  net name = Delivered -> d !! name = Some content ->
  (forall k, k <> name -> net k <> Delivered) ->
  delivered_now net d files = [content].
Proof.
  intros Hnd Hin Hnet Hd Hother.
  induction Hnd as [|f rest Hf Hnd IH]; [now apply elem_of_nil in Hin|].
  change (delivered_now net d (f :: rest))
    with (match (match net f with
                 | Delivered => d !! f
                 | Unreachable | Broken => None
                 end) with
          | Some y => y :: delivered_now net d rest
          | None => delivered_now net d rest
          end).
  destruct (decide (f = name)) as [->|Hne].
  - rewrite Hnet, Hd. f_equal. apply delivered_now_none.
    intros k Hk. apply Hother. intros ->. contradiction.
  - apply elem_of_cons in Hin as [Hin|Hin]; [congruence|].
    specialize (Hother f Hne).
    destruct (net f); [contradiction| |]; now apply IH.
Qed.

(** X12.  Delivery failure, then success.  If a report cannot be delivered
    and is saved under a name that is not in the store yet, and at the next
    retry pass the connection for that record goes through while no other
    connection does, then after the pass the collector has received the
    encoded report, once, and nothing else, and the store is exactly what it
    was before the report was built: no duplicate and no leftover file. *)
Theorem stored_report_is_delivered_by_retry (env : SendEnv)
    (net : string -> Connection) (readings : list (@ReadingObj num))
    (anomalies_list : list (AnomalyEvent num)) (self : DroneEdge num) :
  filter (fun r => has_T_H r = true) readings <> [] ->
  connection env = Unreachable ->
  unsent_dir self !! unsent_name env = None ->
  _stop self = false ->
  net (unsent_name env) = Delivered ->
  (forall k, k <> unsent_name env -> net k <> Delivered) ->
  let rpt := make_rpt env (filter (fun r => has_T_H r = true) readings)
               anomalies_list self in
  exists self1 self2,
    _send_report json_dumps env readings anomalies_list self = inr self1
    /\ collector self1 = collector self
    /\ unsent_dir self1 !! unsent_name env = Some (to_bytes json_dumps rpt)
    /\ retry_cycle net self1 = inr self2
    /\ collector self2 = collector self ++ [to_bytes json_dumps rpt]
    /\ unsent_dir self2 = unsent_dir self.
Proof.
  intros Hv Hc Hfresh Hstop Hnet Hother rpt.
  pose proof (send_report_outcome json_dumps env readings anomalies_list self Hv)
    as Hsend. cbv zeta in Hsend. fold rpt in Hsend. rewrite Hc in Hsend.
  set (self1 := with_unsent
                  (<[unsent_name env := to_bytes json_dumps rpt]> (unsent_dir self))
                  (logging (LogUnreachableSaved (unsent_name env))
                     (gui_put rpt self))) in *.
  assert (Hd1 : unsent_dir self1
                = <[unsent_name env := to_bytes json_dumps rpt]> (unsent_dir self))
    by reflexivity.
  assert (Hlook : unsent_dir self1 !! unsent_name env
                  = Some (to_bytes json_dumps rpt))
    by (rewrite Hd1; apply lookup_insert_eq).
  assert (Hglob : unsent_name env ∈ glob_json (unsent_dir self1)).
  { apply elem_of_glob_json. split; [apply is_json_name_app | eauto]. }
  destruct (resend_all_outcome net (glob_json (unsent_dir self1)) self1
              (glob_json_NoDup _) Hstop) as (self2 & Hrun & Hd & Hcol & _).
  exists self1, self2. split; [exact Hsend|]. split; [reflexivity|].
  split; [exact Hlook|]. split.
  { unfold retry_cycle. case_decide as Hempty; [|exact Hrun].
    rewrite Hempty, lookup_empty in Hlook. discriminate. }
  split.
  - rewrite Hcol. f_equal.
    now apply (delivered_now_single net _ _ (unsent_name env));
      [apply glob_json_NoDup | | | |].
  - apply map_eq. intros k. rewrite Hd, Hd1.
    destruct (decide (k = unsent_name env)) as [->|Hne].
    + case_decide as H; [now rewrite Hfresh|]. destruct H. now split.
    + rewrite lookup_insert_ne by congruence.
      case_decide as H; [|reflexivity]. destruct H as [_ H].
      now apply Hother in H.
Qed.

Lemma delivered_now_all (net : string -> Connection) (d : gmap string string)
    (files : list string) :
  (forall name, net name = Delivered) ->
  delivered_now net d files = omap (fun name => d !! name) files.
Proof.
  intros Hall. unfold delivered_now.
  induction files as [|k l IH]; [reflexivity|].
  cbn [omap list_omap]. rewrite Hall.
  destruct (d !! k); [f_equal|]; exact IH.
Qed.

(** X13.  A retry pass during which every connection goes through leaves
    no [.json] record in the store, and hands the collector the content of
    every such record, each once, in the order of the listing. *)
Theorem retry_cycle_empties_store (net : string -> Connection)
    (self : DroneEdge num) :
  _stop self = false ->
  (forall name, net name = Delivered) ->
  exists self',
    retry_cycle net self = inr self'
    /\ glob_json (unsent_dir self') = []
    /\ (forall name, is_json_name name = true -> unsent_dir self' !! name = None)
    /\ collector self'
       = collector self
         ++ omap (fun name => unsent_dir self !! name) (glob_json (unsent_dir self)).
Proof.
  intros Hstop Hall.
  assert (Hgone : forall self' : DroneEdge num,
            (forall k, unsent_dir self' !! k
                       = if decide (k ∈ glob_json (unsent_dir self) /\ net k = Delivered)
                         then None else unsent_dir self !! k) ->
            forall name, is_json_name name = true ->
                         unsent_dir self' !! name = None).
  { intros self' Hd name Hj. rewrite Hd. case_decide as H; [reflexivity|].
    destruct (unsent_dir self !! name) as [x|] eqn:Hx; [|reflexivity].
    destruct H. split; [|apply Hall].
    apply elem_of_glob_json. split; [exact Hj | eauto]. }
  assert (Hdel : delivered_now net (unsent_dir self) (glob_json (unsent_dir self))
                 = omap (fun name => unsent_dir self !! name)
                     (glob_json (unsent_dir self))).
  { now apply delivered_now_all. }
  assert (Hnil : forall self' : DroneEdge num,
            (forall name, is_json_name name = true ->
                          unsent_dir self' !! name = None) ->
            glob_json (unsent_dir self') = []).
  { intros self' Hn. destruct (glob_json (unsent_dir self')) as [|k l] eqn:Hg;
      [reflexivity|].
    assert (Hk : k ∈ glob_json (unsent_dir self')) by (rewrite Hg; left).
    apply elem_of_glob_json in Hk as [Hj [x Hx]].
    rewrite (Hn k Hj) in Hx. discriminate. }
  unfold retry_cycle. case_decide as Hempty.
  - exists self.
    assert (Hg0 : glob_json (unsent_dir self) = []).
    { unfold glob_json. rewrite Hempty, map_to_list_empty. reflexivity. }
    split; [reflexivity|]. split; [exact Hg0|].
    split; [intros name _; rewrite Hempty; apply lookup_empty|].
    rewrite Hg0. simpl. now rewrite app_nil_r.
  - destruct (resend_all_outcome net (glob_json (unsent_dir self)) self
                (glob_json_NoDup _) Hstop) as (self' & Hrun & Hd & Hcol & _).
    exists self'. split; [exact Hrun|].
    split; [apply Hnil; now apply Hgone|].
    split; [now apply Hgone|]. now rewrite Hcol, Hdel.
Qed.

End StoreRuns.

Lemma send_report_drops_on_other_error_witness :
  filter (fun r => has_T_H r = true) (map as_obj sample_batch) <> []
  /\ connection (sample_env Broken) = Broken
  /\ exists self',
       _send_report sample_dumps (sample_env Broken) (map as_obj sample_batch) []
         DroneEdge_init = inr self'
       /\ collector self' = []
       /\ unsent_dir self' = ∅.
Proof.
  assert (Hv : filter (fun r => has_T_H r = true) (map as_obj sample_batch) <> [])
    by discriminate.
  assert (Hc : connection (sample_env Broken) = Broken) by reflexivity.
  split; [exact Hv|]. split; [exact Hc|].
  destruct (send_report_drops_on_other_error sample_dumps (sample_env Broken)
              (map as_obj sample_batch) [] DroneEdge_init Hv Hc)
    as (rpt & self' & Hrun & _ & Hcol & Hu & _).
  exists self'. split; [exact Hrun|]. split; [exact Hcol | exact Hu].
Defined.

(** The collector is back for the record named after [sample_env] only. *)
Definition sample_only (name : string) : Connection :=
  if String.eqb name "1747232981.5.json" then Delivered else Unreachable.

Lemma stored_report_is_delivered_by_retry_witness :
  (filter (fun r => has_T_H r = true) (map as_obj sample_batch) <> []
   /\ connection (sample_env Unreachable) = Unreachable
   /\ unsent_dir (@DroneEdge_init Q) !! unsent_name (sample_env Unreachable) = None
   /\ _stop (@DroneEdge_init Q) = false
   /\ sample_only (unsent_name (sample_env Unreachable)) = Delivered
   /\ (forall k, k <> unsent_name (sample_env Unreachable) ->
                 sample_only k <> Delivered))
  /\ exists self1 self2,
       _send_report sample_dumps (sample_env Unreachable) (map as_obj sample_batch)
         [] DroneEdge_init = inr self1
       /\ retry_cycle sample_only self1 = inr self2
       /\ collector self2 = ["2025-05-14T14:29:41" +:+ DELIM]
       /\ unsent_dir self2 = ∅.
Proof.
  assert (H1 : filter (fun r => has_T_H r = true) (map as_obj sample_batch) <> [])
    by discriminate.
  assert (H2 : connection (sample_env Unreachable) = Unreachable) by reflexivity.
  assert (H3 : unsent_dir (@DroneEdge_init Q) !! unsent_name (sample_env Unreachable)
               = None) by reflexivity.
  assert (H4 : _stop (@DroneEdge_init Q) = false) by reflexivity.
  assert (H5 : sample_only (unsent_name (sample_env Unreachable)) = Delivered)
    by reflexivity.
  assert (H6 : forall k, k <> unsent_name (sample_env Unreachable) ->
                         sample_only k <> Delivered).
  { intros k Hk. unfold sample_only.
    destruct (String.eqb_spec k "1747232981.5.json") as [->|_];
      [now destruct Hk | discriminate]. }
  split; [repeat split; assumption|].
  destruct (stored_report_is_delivered_by_retry sample_dumps (sample_env Unreachable)
              sample_only (map as_obj sample_batch) [] DroneEdge_init
              H1 H2 H3 H4 H5 H6)
    as (self1 & self2 & Hs & _ & _ & Hr & Hc & Hu).
  exists self1, self2. split; [exact Hs|]. split; [exact Hr|].
  split; [exact Hc | exact Hu].
Defined.

Lemma retry_cycle_empties_store_witness :
  let self := with_unsent two_records (@DroneEdge_init Q) in
  _stop self = false
  /\ (forall name : string, (fun _ => Delivered) name = Delivered)
  /\ exists self',
       retry_cycle (fun _ => Delivered) self = inr self'
       /\ glob_json (unsent_dir self') = [].
Proof.
  intros self.
  assert (H1 : _stop self = false) by reflexivity.
  assert (H2 : forall name : string, (fun _ => Delivered) name = Delivered)
    by reflexivity.
  split; [exact H1|]. split; [exact H2|].
  destruct (retry_cycle_empties_store (fun _ => Delivered) self H1 H2)
    as (self' & Hrun & Hg & _).
  exists self'. split; [exact Hrun | exact Hg].
Defined.

(** ** Framing: the receive loops

    [_sensor_handler] in [drone_edge/drone.py] and [Receiver.run] in
    [central_server/gui_central.py] read a connection the same way: each
    chunk received is appended to a buffer, and while the buffer holds a
    delimiter the text before the first delimiter is split off, skipped if
    it is empty, and decoded otherwise; a frame that fails to decode is
    logged and dropped.  Bytes are modelled as [string], whose characters
    are bytes. *)

Definition DELIM_byte : Ascii.ascii := Ascii.ascii_of_nat 10.

(** [DELIM.encode() in buffer] and [buffer.split(DELIM.encode(), 1)]:
    [None] when the buffer holds no delimiter, else the text before the
    first delimiter and the text after it. *)
Fixpoint split_delim (buffer : string) : option (string * string) :=
  match buffer with
  | EmptyString => None
  | String c rest =>
    if Ascii.eqb c DELIM_byte then Some (EmptyString, rest)
    else match split_delim rest with
         | Some (raw, buffer') => Some (String c raw, buffer')
         | None => None
         end
  end.

(** What a receive loop has produced so far: the records it decoded and
    passed on (to [readings_q] and [gui_q] in the sensor handler, to the
    GUI queue in the receiver), and the frames it logged as undecodable. *)
Record Inbox (A : Type) := mkInbox {
  accepted : list A;
  rejected : list string
}.
Arguments mkInbox {A}.
Arguments accepted {A}.
Arguments rejected {A}.

Section Framing.
Context {A : Type}.

(** Decoding one frame: [SensorReading.from_bytes(raw)] in the sensor
    handler, the [DroneReport] built from [json.loads(raw.decode())] and
    its formatting in the receiver.  Both rest on [json.loads]. *)
Variable decode : string -> exn + A.

(** The [try ... except json.JSONDecodeError ... except Exception] around
    the decoding of a frame. *)
Definition on_frame (raw : string) (box : Inbox A) : Inbox A :=
  match decode raw with
  | inr record => mkInbox (accepted box ++ [record]) (rejected box)
  | inl _ => mkInbox (accepted box) (rejected box ++ [raw])
  end.

(** [while DELIM.encode() in buffer: ...], at most [fuel] times round.
    [stop] is [self._stop.is_set()] (never set for the receiver, which has
    no such test). *)
Fixpoint frames_loop (fuel : nat) (stop : bool) (buffer : string)
    (box : Inbox A) : string * Inbox A :=
  match fuel with
  | O => (buffer, box)
  | S fuel' =>
    match split_delim buffer with
    | None => (buffer, box)
    | Some (raw, buffer') =>
      if stop then (buffer, box)
      else match raw with
           | EmptyString => frames_loop fuel' stop buffer' box
           | String _ _ => frames_loop fuel' stop buffer' (on_frame raw box)
           end
    end
  end.

(** One chunk: [buffer += chunk], then the loop.  Each round of the loop
    removes a delimiter from the buffer, so its length is fuel enough. *)
Definition on_chunk (stop : bool) (st : string * Inbox A) (chunk : string)
  : string * Inbox A :=
  let buffer := st.1 +:+ chunk in
  frames_loop (String.length buffer) stop buffer st.2.

(** The chunks of a connection, in the order they are received. *)
Definition on_chunks (stop : bool) (chunks : list string)
    (st : string * Inbox A) : string * Inbox A :=
  fold_left (on_chunk stop) chunks st.

End Framing.

(** A text without delimiter. *)
Definition delim_free (s : string) : Prop :=
  ~ In DELIM_byte (String.list_ascii_of_string s).

Lemma DELIM_is_byte : DELIM = String DELIM_byte EmptyString.
Proof. reflexivity. Qed.

Lemma string_app_cons (x : Ascii.ascii) (a b : string) :
  String x a +:+ b = String x (a +:+ b).
Proof. reflexivity. Qed.

Lemma string_app_assoc (a b c : string) : (a +:+ b) +:+ c = a +:+ (b +:+ c).
Proof.
  induction a as [|x a IH]; [reflexivity|].
  rewrite !string_app_cons. f_equal. exact IH.
Qed.

Lemma string_app_nil_r (a : string) : a +:+ "" = a.
Proof.
  induction a as [|x a IH]; [reflexivity|].
  rewrite string_app_cons. f_equal. exact IH.
Qed.

Lemma split_delim_None (s : string) : split_delim s = None <-> delim_free s.
Proof.
  unfold delim_free. induction s as [|c s IH]; simpl; [tauto|].
  destruct (Ascii.eqb_spec c DELIM_byte) as [->|Hne].
  - split; [discriminate|]. intros H. exfalso. apply H. now left.
  - destruct (split_delim s) as [[raw rest]|].
    + split; [discriminate|]. intros H. exfalso.
      assert (Hs : ~ In DELIM_byte (String.list_ascii_of_string s)) by tauto.
      apply IH in Hs. discriminate.
    + split; [|reflexivity]. intros _ [H|H]; [congruence|].
      now apply (proj1 IH).
Qed.

Lemma split_delim_Some (s raw rest : string) :
  split_delim s = Some (raw, rest) ->
  s = raw +:+ DELIM +:+ rest /\ delim_free raw.
Proof.
  unfold delim_free. revert raw rest.
  induction s as [|c s IH]; intros raw rest; simpl; [discriminate|].
  destruct (Ascii.eqb_spec c DELIM_byte) as [->|Hne].
  - intros [= <- <-]. simpl. split; [reflexivity | tauto].
  - destruct (split_delim s) as [[raw' rest']|]; [|discriminate].
    intros [= <- <-]. destruct (IH raw' rest' eq_refl) as [-> Hfree].
    split; [reflexivity|]. simpl. intros [H|H]; [congruence | contradiction].
Qed.

Lemma split_delim_frame (p rest : string) :
  delim_free p -> split_delim (p +:+ DELIM +:+ rest) = Some (p, rest).
Proof.
  unfold delim_free. induction p as [|c p IH]; simpl; intros Hfree.
  - reflexivity.
  - destruct (Ascii.eqb_spec c DELIM_byte) as [->|Hne]; [exfalso; tauto|].
    rewrite IH by tauto. reflexivity.
Qed.

Lemma split_delim_more (s t raw rest : string) :
  split_delim s = Some (raw, rest) ->
  split_delim (s +:+ t) = Some (raw, rest +:+ t).
Proof.
  intros H. apply split_delim_Some in H as [-> Hfree].
  rewrite !string_app_assoc. now apply split_delim_frame.
Qed.

Lemma split_delim_shorter (s raw rest : string) :
  split_delim s = Some (raw, rest) ->
  (String.length rest < String.length s)%nat.
Proof.
  intros H. apply split_delim_Some in H as [-> _].
  rewrite !string_length_app. simpl. lia.
Qed.

(** The byte stream that carries the given payloads, one frame each. *)
Definition stream (payloads : list string) : string :=
  fold_right (fun p rest => p +:+ DELIM +:+ rest) "" payloads.

(** The chunks of a connection joined together. *)
Definition joined (chunks : list string) : string :=
  fold_right String.append "" chunks.

Definition is_empty_frame (raw : string) : bool :=
  match raw with EmptyString => true | String _ _ => false end.

Section FramingProps.
Context {A : Type}.
Variable decode : string -> exn + A.

(** The loop run on a buffer with the fuel [on_chunk] gives it. *)
Definition frames_run (buffer : string) (box : Inbox A) : string * Inbox A :=
  frames_loop decode (String.length buffer) false buffer box.

Lemma frames_loop_fuel (f1 f2 : nat) (buffer : string) (box : Inbox A) :
  (String.length buffer <= f1)%nat -> (String.length buffer <= f2)%nat ->
  frames_loop decode f1 false buffer box = frames_loop decode f2 false buffer box.
Proof.
  revert f2 buffer box. induction f1 as [|f1 IH]; intros f2 buffer box H1 H2.
  - destruct buffer; [|simpl in H1; lia]. destruct f2; reflexivity.
  - destruct f2 as [|f2].
    + destruct buffer; [reflexivity | simpl in H2; lia].
    + cbn [frames_loop].
      destruct (split_delim buffer) as [[raw rest]|] eqn:Hs; [|reflexivity].
      apply split_delim_shorter in Hs.
      destruct raw; apply IH; lia.
Qed.

Lemma frames_run_step (buffer raw rest : string) (box : Inbox A) :
  split_delim buffer = Some (raw, rest) ->
  frames_run buffer box
  = frames_run rest (if is_empty_frame raw then box else on_frame decode raw box).
Proof.
  intros Hs. unfold frames_run.
  pose proof (split_delim_shorter _ _ _ Hs) as Hlt.
  destruct (String.length buffer) as [|n] eqn:Hn; [lia|].
  cbn [frames_loop]. rewrite Hs.
  destruct raw; cbn [is_empty_frame]; apply frames_loop_fuel; lia.
Qed.

Lemma frames_run_done (buffer : string) (box : Inbox A) :
  split_delim buffer = None -> frames_run buffer box = (buffer, box).
Proof.
  intros Hs. unfold frames_run.
  destruct (String.length buffer); cbn [frames_loop]; [|rewrite Hs]; reflexivity.
Qed.

(** Induction over the rounds of the loop. *)
Lemma frames_run_ind (P : string -> Inbox A -> Prop) :
  (forall buffer box, split_delim buffer = None -> P buffer box) ->
  (forall buffer raw rest box,
     split_delim buffer = Some (raw, rest) ->
     P rest (if is_empty_frame raw then box else on_frame decode raw box) ->
     P buffer box) ->
  forall buffer box, P buffer box.
Proof.
  intros Hdone Hstep buffer.
  remember (String.length buffer) as n eqn:Hn.
  revert buffer Hn. induction n as [n IH] using lt_wf_ind. intros buffer Hn box.
  destruct (split_delim buffer) as [[raw rest]|] eqn:Hs.
  - apply (Hstep _ _ _ _ Hs).
    apply (IH (String.length rest)); [|reflexivity].
    subst n. now apply split_delim_shorter in Hs.
  - now apply Hdone.
Qed.

Lemma frames_run_buffer (buffer : string) (box : Inbox A) :
  delim_free (frames_run buffer box).1.
Proof.
  revert buffer box. apply frames_run_ind.
  - intros buffer box Hs. rewrite frames_run_done by exact Hs.
    now apply split_delim_None.
  - intros buffer raw rest box Hs IH. now rewrite (frames_run_step _ _ _ _ Hs).
Qed.

Lemma frames_run_more (chunk buffer : string) (box : Inbox A) :
  frames_run (buffer +:+ chunk) box
  = frames_run ((frames_run buffer box).1 +:+ chunk) (frames_run buffer box).2.
Proof.
  revert buffer box. apply frames_run_ind.
  - intros buffer box Hs. now rewrite (frames_run_done buffer box Hs).
  - intros buffer raw rest box Hs IH.
    rewrite (frames_run_step _ _ _ _ Hs).
    rewrite (frames_run_step _ _ _ _ (split_delim_more _ chunk _ _ Hs)).
    exact IH.
Qed.

Lemma on_chunk_run (st : string * Inbox A) (chunk : string) :
  on_chunk decode false st chunk = frames_run (st.1 +:+ chunk) st.2.
Proof. reflexivity. Qed.

Lemma on_chunks_joined (chunks : list string) (st : string * Inbox A) :
  delim_free st.1 ->
  on_chunks decode false chunks st = frames_run (st.1 +:+ joined chunks) st.2.
Proof.
  unfold on_chunks. revert st.
  induction chunks as [|c cs IH]; intros [buffer box] Hfree; cbn [fst snd] in *.
  - cbn [fold_left joined fold_right]. rewrite string_app_nil_r.
    symmetry. apply frames_run_done. now apply split_delim_None.
  - cbn [fold_left joined fold_right]. rewrite on_chunk_run. cbn [fst snd].
    rewrite IH by apply frames_run_buffer.
    rewrite <- frames_run_more. now rewrite string_app_assoc.
Qed.

(** X14.  How a stream is cut into chunks does not matter.  Starting from
    a buffer that holds no complete frame (as the empty buffer a
    connection starts with), receiving the chunks one by one leaves the
    same buffer, the same decoded records and the same rejected frames as
    receiving all the bytes in one chunk; and the buffer left behind never
    holds a delimiter. *)
Theorem receive_loop_chunking (chunks : list string) (st : string * Inbox A) :
  delim_free st.1 ->
  on_chunks decode false chunks st = on_chunk decode false st (joined chunks)
  /\ delim_free (on_chunks decode false chunks st).1.
Proof.
  intros Hfree. rewrite on_chunks_joined by exact Hfree.
  split; [reflexivity | apply frames_run_buffer].
Qed.

(** The records decoded from a list of frames and the frames rejected. *)
Definition decoded (frames : list string) : list A :=
  omap (fun raw => match decode raw with inr a => Some a | inl _ => None end) frames.

Definition fails (raw : string) : bool :=
  match decode raw with inr _ => false | inl _ => true end.

Definition undecodable (frames : list string) : list string :=
  filter (fun raw => fails raw = true) frames.

Lemma frames_run_stream (payloads : list string) (tail : string) (box : Inbox A) :
  Forall delim_free payloads -> delim_free tail ->
  let frames := filter (fun p => is_empty_frame p = false) payloads in
  frames_run (stream payloads +:+ tail) box
  = (tail, mkInbox (accepted box ++ decoded frames)
                   (rejected box ++ undecodable frames)).
Proof.
  intros Hps Htail. revert box.
  induction Hps as [|p ps Hp Hps IH]; intros box.
  - cbn. rewrite !app_nil_r. destruct box as [acc rej].
    apply frames_run_done. now apply split_delim_None.
  - cbn [stream fold_right]. fold (stream ps).
    rewrite !string_app_assoc.
    rewrite (frames_run_step _ p (stream ps +:+ tail)) by now apply split_delim_frame.
    rewrite IH. cbv zeta. rewrite filter_cons.
    destruct p as [|c p]; cbn [is_empty_frame].
    + case_decide; [discriminate | reflexivity].
    + case_decide; [|congruence]. unfold on_frame, decoded, undecodable.
      rewrite filter_cons. cbn [omap list_omap].
      assert (Hf : fails (String c p)
                   = match decode (String c p) with
                     | inr _ => false | inl _ => true end) by reflexivity.
      destruct (decode (String c p)); rewrite Hf; case_decide;
        try congruence; cbn [accepted rejected];
        rewrite <- ?app_assoc; reflexivity.
Qed.

Lemma on_chunks_stream (chunks payloads : list string) (tail : string)
    (box : Inbox A) :
  Forall delim_free payloads -> delim_free tail ->
  joined chunks = stream payloads +:+ tail ->
  let frames := filter (fun p => is_empty_frame p = false) payloads in
  on_chunks decode false chunks ("", box)
  = (tail, mkInbox (accepted box ++ decoded frames)
                   (rejected box ++ undecodable frames)).
Proof.
  intros Hps Htail Hjoin.
  rewrite on_chunks_joined by (unfold delim_free; simpl; tauto).
  cbn [fst snd]. change ("" +:+ joined chunks) with (joined chunks).
  rewrite Hjoin. now apply frames_run_stream.
Qed.

(** X15.  Frames come out as they went in.  If the bytes of a connection,
    however chunked, are the payloads [p1 ... pn] each followed by the
    delimiter, then an unfinished tail, and no payload nor the tail holds a
    delimiter, then the loop decodes exactly the non-empty payloads, each
    once and in order: the decodable ones are passed on, the others are
    logged and dropped without disturbing the frames after them, and the
    tail stays in the buffer for the next chunk. *)
Theorem receive_loop_stream (chunks payloads : list string) (tail : string)
    (box : Inbox A) :
  Forall delim_free payloads -> delim_free tail ->
  joined chunks = stream payloads +:+ tail ->
  let frames := filter (fun p => is_empty_frame p = false) payloads in
  on_chunks decode false chunks ("", box)
  = (tail, mkInbox (accepted box ++ decoded frames)
                   (rejected box ++ undecodable frames)).
Proof. apply on_chunks_stream. Qed.

End FramingProps.

(** Decidable form of [delim_free], for concrete texts. *)
Definition delim_freeb (s : string) : bool :=
  match split_delim s with None => true | Some _ => false end.

Lemma delim_freeb_true (s : string) : delim_freeb s = true -> delim_free s.
Proof.
  unfold delim_freeb. intros H. apply split_delim_None.
  destruct (split_delim s); [discriminate | reflexivity].
Defined.

(** A decoder for the concrete runs: every frame is its own record. *)
Definition keep_text (raw : string) : exn + string :=
  if String.eqb raw "bad" then inl JSONDecodeError else inr raw.

Definition three_chunks : list string :=
  ["ab"; "c" +:+ DELIM +:+ DELIM +:+ "ba"; "d" +:+ DELIM +:+ "de" +:+ DELIM +:+ "f"].

Lemma receive_loop_chunking_witness :
  delim_free ("", mkInbox ([] : list string) []).1
  /\ on_chunks keep_text false three_chunks ("", mkInbox [] [])
     = on_chunk keep_text false ("", mkInbox [] []) (joined three_chunks).
Proof.
  assert (H : delim_free ("", mkInbox ([] : list string) []).1)
    by (apply delim_freeb_true; reflexivity).
  split; [exact H|].
  exact (proj1 (receive_loop_chunking keep_text three_chunks
                  ("", mkInbox [] []) H)).
Defined.

Lemma receive_loop_stream_witness :
  Forall delim_free ["abc"; ""; "bad"; "de"]
  /\ delim_free "f"
  /\ joined three_chunks = stream ["abc"; ""; "bad"; "de"] +:+ "f"
  /\ on_chunks keep_text false three_chunks ("", mkInbox [] [])
     = ("f", mkInbox ["abc"; "de"] ["bad"]).
Proof.
  assert (H1 : Forall delim_free ["abc"; ""; "bad"; "de"])
    by (repeat constructor; apply delim_freeb_true; reflexivity).
  assert (H2 : delim_free "f") by (apply delim_freeb_true; reflexivity).
  assert (H3 : joined three_chunks = stream ["abc"; ""; "bad"; "de"] +:+ "f")
    by reflexivity.
  split; [exact H1|]. split; [exact H2|]. split; [exact H3|].
  exact (receive_loop_stream keep_text three_chunks ["abc"; ""; "bad"; "de"] "f"
           (mkInbox [] []) H1 H2 H3).
Defined.

(** ** common/messages.py on the wire *)

(** [SensorReading.to_bytes]: the JSON text of the reading, then the
    delimiter.  [dumps] is [json.dumps(asdict(reading))]. *)
Definition SensorReading_to_bytes {num : Type}
    (dumps : SensorReading.t num -> string) (reading : SensorReading.t num)
  : string :=
  dumps reading +:+ DELIM.

Lemma joined_frames (payloads : list string) :
  joined ((fun p => p +:+ DELIM) <$> payloads) = stream payloads +:+ "".
Proof.
  rewrite string_app_nil_r.
  induction payloads as [|p ps IH]; [reflexivity|].
  cbn [fmap list_fmap joined stream fold_right].
  fold (joined ((fun p => p +:+ DELIM) <$> ps)). fold (stream ps).
  rewrite IH. apply string_app_assoc.
Qed.

Lemma decoded_cons_ok {A : Type} (decode : string -> exn + A) (raw : string)
    (a : A) (frames : list string) :
  decode raw = inr a ->
  decoded decode (raw :: frames) = a :: decoded decode frames
  /\ undecodable decode (raw :: frames) = undecodable decode frames.
Proof.
  intros H.
  assert (Hf : fails decode raw = false) by (unfold fails; now rewrite H).
  unfold decoded, undecodable. cbn [omap list_omap]. rewrite H.
  rewrite filter_cons. case_decide; [congruence|]. split; reflexivity.
Qed.

Lemma decoded_cons_fail {A : Type} (decode : string -> exn + A) (raw : string)
    (e : exn) (frames : list string) :
  decode raw = inl e ->
  decoded decode (raw :: frames) = decoded decode frames
  /\ undecodable decode (raw :: frames) = raw :: undecodable decode frames.
Proof.
  intros H.
  assert (Hf : fails decode raw = true) by (unfold fails; now rewrite H).
  unfold decoded, undecodable. cbn [omap list_omap]. rewrite H.
  rewrite filter_cons. case_decide; [|congruence]. split; reflexivity.
Qed.

Lemma is_empty_frame_false (s : string) : s <> "" -> is_empty_frame s = false.
Proof. destruct s; [congruence | reflexivity]. Qed.

Section Wire.
Context {num : Type} {PN : PyNum num}.

(** X16.  Sensor to drone.  Readings encoded with [to_bytes] and sent one
    after the other on a connection arrive in [_sensor_handler] as they
    were sent, whatever the chunking: provided the JSON text of each
    reading holds no raw newline, is not empty and decodes back to the
    reading, the handler queues exactly these readings, in order, rejects
    nothing and is left with an empty buffer. *)
Theorem sensor_stream_received
    (dumps : SensorReading.t num -> string)
    (from_bytes : string -> exn + SensorReading.t num)
    (readings : list (SensorReading.t num)) (chunks : list string)
    (box : Inbox (SensorReading.t num)) :
  Forall (fun r => delim_free (dumps r) /\ dumps r <> ""
                   /\ from_bytes (dumps r) = inr r) readings ->
  joined chunks = joined (SensorReading_to_bytes dumps <$> readings) ->
  on_chunks from_bytes false chunks ("", box)
  = ("", mkInbox (accepted box ++ readings) (rejected box)).
Proof.
  intros Hok Hjoin.
  assert (Hfree : Forall delim_free (dumps <$> readings)).
  { apply Forall_fmap. eapply Forall_impl; [exact Hok|]. now intros r [H _]. }
  assert (Hj : joined chunks = stream (dumps <$> readings) +:+ "").
  { rewrite Hjoin, <- joined_frames, <- list_fmap_compose. reflexivity. }
  rewrite (on_chunks_stream from_bytes chunks (dumps <$> readings) "" box
             Hfree ltac:(unfold delim_free; simpl; tauto) Hj).
  f_equal. clear Hfree Hj Hjoin.
  assert (Hlists : decoded from_bytes
                     (filter (fun p => is_empty_frame p = false) (dumps <$> readings))
                   = readings
                   /\ undecodable from_bytes
                        (filter (fun p => is_empty_frame p = false) (dumps <$> readings))
                      = []).
  { induction Hok as [|r rs (Hf & Hne & Hdec) Hrs [IH1 IH2]]; [split; reflexivity|].
    cbn [fmap list_fmap]. rewrite filter_cons.
    rewrite (is_empty_frame_false _ Hne). case_decide; [|congruence].
    destruct (decoded_cons_ok from_bytes (dumps r) r
                (filter (fun p => is_empty_frame p = false) (dumps <$> rs)) Hdec)
      as [-> ->].
    split; [now rewrite IH1 | exact IH2]. }
  destruct Hlists as [-> ->]. now rewrite app_nil_r.
Qed.

(** X17.  Drone to collector.  The bytes [_send_report] hands to a
    connection that goes through, received by [Receiver.run] on that
    connection in any chunking, are decoded as exactly one frame, the JSON
    text of the report, provided this text holds no raw newline and is not
    empty. *)
Theorem sent_report_is_received {A : Type}
    (json_dumps : DroneReport.t num -> string) (decode : string -> exn + A)
    (env : SendEnv) (readings : list (@ReadingObj num))
    (anomalies_list : list (AnomalyEvent num)) (self : DroneEdge num)
    (box : Inbox A) :
  filter (fun r => has_T_H r = true) readings <> [] ->
  connection env = Delivered ->
  let rpt := make_rpt env (filter (fun r => has_T_H r = true) readings)
               anomalies_list self in
  delim_free (json_dumps rpt) ->
  json_dumps rpt <> "" ->
  exists self' bytes,
    _send_report json_dumps env readings anomalies_list self = inr self'
    /\ collector self' = collector self ++ [bytes]
    /\ forall chunks,
         joined chunks = bytes ->
         on_chunks decode false chunks ("", box)
         = ("", on_frame decode (json_dumps rpt) box).
Proof.
  intros Hv Hc rpt Hfree Hne.
  exists (logging LogReportSent
            (collector_recv (to_bytes json_dumps rpt) (gui_put rpt self))),
         (to_bytes json_dumps rpt).
  split.
  { rewrite (send_report_outcome json_dumps env readings anomalies_list self Hv).
    fold rpt. now rewrite Hc. }
  split; [reflexivity|].
  intros chunks Hjoin.
  assert (Hj : joined chunks = stream [json_dumps rpt] +:+ "").
  { rewrite Hjoin. unfold to_bytes. cbn [stream fold_right].
    now rewrite !string_app_nil_r. }
  rewrite (on_chunks_stream decode chunks [json_dumps rpt] "" box
             ltac:(repeat constructor; exact Hfree)
             ltac:(unfold delim_free; simpl; tauto) Hj).
  rewrite filter_cons, filter_nil.
  rewrite (is_empty_frame_false _ Hne). case_decide; [|congruence].
  unfold on_frame.
  destruct (decode (json_dumps rpt)) as [e|a] eqn:Hd.
  - destruct (decoded_cons_fail decode (json_dumps rpt) e [] Hd) as [-> ->].
    cbn. now rewrite app_nil_r.
  - destruct (decoded_cons_ok decode (json_dumps rpt) a [] Hd) as [-> ->].
    cbn. now rewrite app_nil_r.
Qed.

End Wire.

(** A stand-in JSON layer for the concrete run: the text of a reading is
    its sensor id, and decoding fills in the other fields. *)
Definition id_dumps (r : SensorReading.t Q) : string := SensorReading.sensor_id r.

Definition id_from_bytes (raw : string) : exn + SensorReading.t Q :=
  inr (SensorReading.mk raw 21%Q 50%Q "2025-05-14T14:29:40").

Definition two_readings : list (SensorReading.t Q) :=
  [SensorReading.mk "sensor1" 21%Q 50%Q "2025-05-14T14:29:40";
   SensorReading.mk "sensor2" 21%Q 50%Q "2025-05-14T14:29:40"].

Lemma sensor_stream_received_witness :
  let chunks := ["sens"; "or1" +:+ DELIM +:+ "sensor2"; DELIM] in
  Forall (fun r => delim_free (id_dumps r) /\ id_dumps r <> ""
                   /\ id_from_bytes (id_dumps r) = inr r) two_readings
  /\ joined chunks = joined (SensorReading_to_bytes id_dumps <$> two_readings)
  /\ on_chunks id_from_bytes false chunks ("", mkInbox [] [])
     = ("", mkInbox two_readings []).
Proof.
  intros chunks.
  assert (H1 : Forall (fun r => delim_free (id_dumps r) /\ id_dumps r <> ""
                                /\ id_from_bytes (id_dumps r) = inr r) two_readings).
  { repeat constructor; try (apply delim_freeb_true; reflexivity); discriminate. }
  assert (H2 : joined chunks = joined (SensorReading_to_bytes id_dumps <$> two_readings))
    by reflexivity.
  split; [exact H1|]. split; [exact H2|].
  exact (sensor_stream_received id_dumps id_from_bytes two_readings chunks
           (mkInbox [] []) H1 H2).
Defined.

Lemma sent_report_is_received_witness :
  let readings := map as_obj sample_batch in
  let rpt := make_rpt (sample_env Delivered)
               (filter (fun r => has_T_H r = true) readings) [] DroneEdge_init in
  filter (fun r => has_T_H r = true) readings <> []
  /\ connection (sample_env Delivered) = Delivered
  /\ delim_free (sample_dumps rpt)
  /\ sample_dumps rpt <> ""
  /\ exists self' bytes,
       _send_report sample_dumps (sample_env Delivered) readings [] DroneEdge_init
       = inr self'
       /\ collector self' = [bytes]
       /\ on_chunks keep_text false ["2025-05-14"; "T14:29:41" +:+ DELIM]
            ("", mkInbox [] [])
          = ("", mkInbox ["2025-05-14T14:29:41"] []).
Proof.
  intros readings rpt.
  assert (H1 : filter (fun r => has_T_H r = true) readings <> []) by discriminate.
  assert (H2 : connection (sample_env Delivered) = Delivered) by reflexivity.
  assert (H3 : delim_free (sample_dumps rpt))
    by (apply delim_freeb_true; reflexivity).
  assert (H4 : sample_dumps rpt <> "") by discriminate.
  split; [exact H1|]. split; [exact H2|]. split; [exact H3|]. split; [exact H4|].
  destruct (sent_report_is_received sample_dumps keep_text (sample_env Delivered)
              readings [] DroneEdge_init (mkInbox [] []) H1 H2 H3 H4)
    as (self' & bytes & Hrun & Hcol & _).
  exists self', bytes. split; [exact Hrun|]. split; [exact Hcol|]. reflexivity.
Defined.

(** ** The node under every event *)

Section NodeInvariants.
Context {num : Type} {PN : PyNum num}.
Variable json_dumps : DroneReport.t num -> string.






End NodeInvariants.
